(** * browser-pool-mcp: the worker pool of [index.js]

    A shallow embedding of the pool and lifecycle code of [index.js]
    (module-level state [instances], [nextPort], [assignedPort],
    [assignedClient]; functions [waitForServer], [getOrCreateInstance],
    [killInstance], [proxyToolCall], the process [exit] handler and the
    cleanup timer), followed by the properties the specification states
    about them.

    Modelling conventions.
    - JavaScript numbers that hold ports, timestamps and counters are
      integers in the program; they are [Z] here.
    - [instances] is a JavaScript [Map]; its iteration order is insertion
      order, which the eviction loop depends on, so it is an association
      list ([JsMap]) kept without duplicate keys.
    - Every [async] function is run to completion as one step.  Whatever
      the outside world decides (the clock, whether a port can be bound,
      how a health probe ends, whether [close] rejects, what [callTool]
      answers) is read from a [World] record.
    - Effects on the outside world are recorded in a list of [Event]s. *)

From Stdlib Require Import ZArith List Bool String DecimalString Lia.
Import ListNotations.
Open Scope Z_scope.

(** ** Configuration (index.js, lines 31-33) *)

Definition BASE_PORT : Z := 9000.
Definition MAX_INSTANCES : nat := 10.
Definition INSTANCE_TIMEOUT_MS : Z := 30 * 60 * 1000.

(** ** Data *)

Definition Port := Z.
(** Handles of the objects the program only passes around. *)
Definition Process := Z.
Definition Client := Z.

(** The value stored per port: [{ process, client, lastUsed, sessionId }]. *)
Record Instance := mkInstance {
  process : Process;
  client : Client;
  lastUsed : Z;
  sessionId : string
}.

Definition setLastUsed (t : Z) (i : Instance) : Instance :=
  mkInstance (process i) (client i) t (sessionId i).

(** ** The JavaScript [Map], in insertion order *)

Module JsMap.

Definition t := list (Port * Instance).

Definition empty : t := [].

Fixpoint get (p : Port) (m : t) : option Instance :=
  match m with
  | [] => None
  | (q, i) :: m' => if q =? p then Some i else get p m'
  end.

Definition has (p : Port) (m : t) : bool :=
  match get p m with Some _ => true | None => false end.

(** Rewrites the value stored under [p], keeping its position. *)
Fixpoint update (p : Port) (f : Instance -> Instance) (m : t) : t :=
  match m with
  | [] => []
  | (q, i) :: m' =>
      if q =? p then (q, f i) :: m' else (q, i) :: update p f m'
  end.

(** [Map.prototype.set]: an existing key keeps its position, a new key
    goes last. *)
Definition set (p : Port) (i : Instance) (m : t) : t :=
  if has p m then update p (fun _ => i) m else m ++ [(p, i)].

(** [Map.prototype.delete]. *)
Fixpoint delete (p : Port) (m : t) : t :=
  match m with
  | [] => []
  | (q, i) :: m' => if q =? p then delete p m' else (q, i) :: delete p m'
  end.

Definition size (m : t) : nat := List.length m.

Definition keys (m : t) : list Port := map fst m.

End JsMap.

(** ** Module-level state (index.js, lines 36-42) *)

Record State := mkState {
  instances : JsMap.t;
  nextPort : Port;
  assignedPort : option Port;
  assignedClient : option Client;
  (** [sessionId], fixed when the module is loaded *)
  session : string
}.

Definition initial (sid : string) : State :=
  mkState JsMap.empty BASE_PORT None None sid.

Definition withInstances (m : JsMap.t) (s : State) : State :=
  mkState m (nextPort s) (assignedPort s) (assignedClient s) (session s).

Definition withNextPort (p : Port) (s : State) : State :=
  mkState (instances s) p (assignedPort s) (assignedClient s) (session s).

Definition withAssigned (p : option Port) (c : option Client) (s : State)
  : State :=
  mkState (instances s) (nextPort s) p c (session s).

(** ** Errors, events, results *)

Inductive Error :=
| NoAvailablePorts                 (* 'No available ports in range 9000-9100' *)
| WaitTimeout (port : Port)        (* 'Timeout waiting for server on port ..' *)
| ConnectFailed (msg : string)     (* rejection of client.connect *)
| CloseFailed (msg : string)       (* rejection of client.close *)
| CallFailed (msg : string)        (* rejection of client.callTool *)
| TypeError (msg : string).        (* raised by the JavaScript runtime *)

(** [error.message] *)
Definition message (e : Error) : string :=
  match e with
  | NoAvailablePorts => "No available ports in range 9000-9100"
  | WaitTimeout port =>
      "Timeout waiting for server on port " ++
      NilZero.string_of_int (Z.to_int port)
  | ConnectFailed m => m
  | CloseFailed m => m
  | CallFailed m => m
  | TypeError m => m
  end.

Inductive Event :=
| EvBindProbe (port : Port)            (* isPortInUse: listen on the port *)
| EvSpawn (port : Port) (pr : Process) (* spawn('npx', [.. --port ..]) *)
| EvSleep (ms : Z)                     (* setTimeout(check, ms) *)
| EvHealthProbe (port : Port)          (* http GET /sse *)
| EvConnect (port : Port)              (* client.connect *)
| EvClose (c : Client)                 (* client.close *)
| EvProcessKill (pr : Process)         (* process.kill *)
| EvCallTool (c : Client) (name args : string).

(** How an awaited computation ends: a value, a thrown error, or never
    (a promise that is not settled by the events received). *)
Inductive Outcome (A : Type) :=
| Ret (a : A)
| Threw (e : Error)
| Pending.
Arguments Ret {A} a.
Arguments Threw {A} e.
Arguments Pending {A}.

(** ** The monad of the program: state, exceptions, event log *)

Definition M (A : Type) : Type := State -> Outcome A * State * list Event.

Definition ret {A} (a : A) : M A := fun s => (Ret a, s, []).

Definition bind {A B} (m : M A) (k : A -> M B) : M B :=
  fun s =>
    match m s with
    | (Ret a, s1, ev1) =>
        match k a s1 with (r, s2, ev2) => (r, s2, ev1 ++ ev2) end
    | (Threw e, s1, ev1) => (Threw e, s1, ev1)
    | (Pending, s1, ev1) => (Pending, s1, ev1)
    end.

Notation "'do' x <- m ;; k" := (bind m (fun x => k))
  (at level 61, x name, m at next level, right associativity).
Notation "m ;;; k" := (bind m (fun _ => k))
  (at level 61, right associativity).

Definition getState : M State := fun s => (Ret s, s, []).
Definition modify (f : State -> State) : M unit := fun s => (Ret tt, f s, []).
Definition emit (e : Event) : M unit := fun s => (Ret tt, s, [e]).
Definition emits (es : list Event) : M unit := fun s => (Ret tt, s, es).
Definition throw {A} (e : Error) : M A := fun s => (Threw e, s, []).
Definition never {A} : M A := fun s => (Pending, s, []).

(** [try { m } catch (e) { h e }] *)
Definition tryCatch {A} (m : M A) (h : Error -> M A) : M A :=
  fun s =>
    match m s with
    | (Threw e, s1, ev1) =>
        match h e s1 with (r, s2, ev2) => (r, s2, ev1 ++ ev2) end
    | other => other
    end.

(** Projections of a run. *)
Definition outcome {A} (r : Outcome A * State * list Event) := fst (fst r).
Definition final {A} (r : Outcome A * State * list Event) := snd (fst r).
Definition events {A} (r : Outcome A * State * list Event) := snd r.

(** ** Tool results (the call channel's [{ content: [...], isError?: boolean }]) *)

Record Content := mkContent { ctype : string; text : string }.

Record ToolResult := mkToolResult {
  content : option (list Content);   (* [None]: no (truthy) [content] field *)
  isError : option bool              (* [None]: no [isError] field *)
}.

(** What [client.callTool] resolves to. *)
Inductive RemoteResult :=
| RUndefined
| RNull
| RObject (r : ToolResult).

(** ** The outside world of one step *)

(** How one health probe of [waitForServer] ends.  [at_ms] is the clock
    when the event is delivered: the response callback never reads it, the
    ['error'] handler reads it with [Date.now()]. *)
Inductive Probe :=
| Responded (at_ms : Z) (status : Z)
| Failed (at_ms : Z).

Record World := mkWorld {
  (** [Date.now()] where [lastUsed] is stamped or compared *)
  now : Z;
  (** [isPortInUse]: does listening on 127.0.0.1:port raise ['error']? *)
  isPortInUse : Port -> bool;
  (** the child process [spawn] returns for a port *)
  spawnHandle : Port -> Process;
  (** [Date.now()] at the start of [waitForServer] *)
  waitStart : Z;
  (** how the successive health probes end *)
  probes : list Probe;
  (** how [client.connect] ends on a port *)
  connectClient : Port -> Error + Client;
  (** how [client.close()] ends: [None] when it resolves *)
  closeClient : Client -> option Error;
  (** [Date.now()] at line 215 of [proxyToolCall] *)
  touchNow : Z;
  (** how [client.callTool] ends *)
  callTool : Client -> string -> string -> Error + RemoteResult;
  (** [JSON.stringify] on a result *)
  JSON_stringify : RemoteResult -> string
}.

(** ** waitForServer (index.js, lines 47-78) *)

(** [check]: one probe, then what its handlers do. *)
Fixpoint check (port : Port) (timeout start : Z) (ps : list Probe) : M unit :=
  emit (EvHealthProbe port) ;;;
  match ps with
  | [] => never
  | Responded _ _ :: _ => ret tt
  | Failed t :: ps' =>
      if t - start >? timeout
      then throw (WaitTimeout port)
      else emit (EvSleep 1000) ;;; check port timeout start ps'
  end.

Definition waitForServerWith (w : World) (port : Port) (timeout : Z) : M unit :=
  emit (EvSleep 3000) ;;; check port timeout (waitStart w) (probes w).

(** The default [timeout = 45000]. *)
Definition waitForServer (w : World) (port : Port) : M unit :=
  waitForServerWith w port 45000.

(** ** createMcpClient (index.js, lines 83-88) *)

Definition createMcpClient (w : World) (port : Port) : M Client :=
  emit (EvConnect port) ;;;
  match connectClient w port with
  | inl e => throw e
  | inr c => ret c
  end.

(** ** killInstance (index.js, lines 193-203) *)

Definition closeM (w : World) (c : Client) : M unit :=
  emit (EvClose c) ;;;
  match closeClient w c with
  | Some e => throw e
  | None => ret tt
  end.

Definition killInstance (w : World) (port : Port) : M unit :=
  do s <- getState ;;
  match JsMap.get port (instances s) with
  | Some instance =>
      tryCatch (closeM w (client instance)) (fun _ => ret tt) ;;;
      emit (EvProcessKill (process instance)) ;;;
      modify (fun s => withInstances (JsMap.delete port (instances s)) s)
  | None => ret tt
  end.

(** ** getOrCreateInstance (index.js, lines 108-188) *)

(** Truthiness of a value that is [null] or a number. *)
Definition truthy (p : option Port) : bool :=
  match p with
  | Some n => negb (n =? 0)
  | None => false
  end.

(** Lines 110-112: the cached assignment, when it passes all three tests. *)
Definition cached (s : State) : option (Port * Client) :=
  match assignedClient s, assignedPort s with
  | Some c, Some p =>
      if truthy (Some p) && JsMap.has p (instances s) then Some (p, c)
      else None
  | _, _ => None
  end.

(** [x < oldestTime], where [None] stands for [Infinity]. *)
Definition ltTime (x : Z) (oldestTime : option Z) : bool :=
  match oldestTime with
  | None => true
  | Some t => x <? t
  end.

(** Body of the loop of lines 122-127 on [(oldestPort, oldestTime)]. *)
Definition oldestStep (acc : option Port * option Z) (e : Port * Instance)
  : option Port * option Z :=
  if ltTime (lastUsed (snd e)) (snd acc)
  then (Some (fst e), Some (lastUsed (snd e)))
  else acc.

Definition findOldest (m : JsMap.t) : option Port * option Z :=
  fold_left oldestStep m (None, None).

(** Lines 119-131. *)
Definition evictIfFull (w : World) : M unit :=
  do s <- getState ;;
  if (MAX_INSTANCES <=? JsMap.size (instances s))%nat then
    match fst (findOldest (instances s)) with
    | Some oldestPort =>
        if truthy (Some oldestPort) then killInstance w oldestPort else ret tt
    | None => ret tt
    end
  else ret tt.

(** The test of line 137, with the bind probes it makes: [isPortInUse] is
    only called when the port is not a key of the map. *)
Definition portFree (w : World) (m : JsMap.t) (port : Port)
  : bool * list Event :=
  if JsMap.has port m then (false, [])
  else (negb (isPortInUse w port), [EvBindProbe port]).

(** Lines 140-141: [port++; if (port > BASE_PORT + 100) port = BASE_PORT]. *)
Definition advance (port : Port) : Port :=
  if port + 1 >? BASE_PORT + 100 then BASE_PORT else port + 1.

(** Lines 134-143: the loop [while (attempts < 100)].  [fuel] bounds the
    number of iterations; [scanPorts_exit] shows that 100 is never used up
    before the loop condition ends the loop. *)
Fixpoint scanPorts (w : World) (m : JsMap.t) (fuel : nat)
  (port attempts : Z) : Port * Z * list Event :=
  match fuel with
  | O => (port, attempts, [])
  | S fuel' =>
      if attempts <? 100 then
        let (free, ev) := portFree w m port in
        if free then (port, attempts, ev)
        else
          match scanPorts w m fuel' (advance port) (attempts + 1) with
          | (p, a, ev') => (p, a, ev ++ ev')
          end
      else (port, attempts, [])
  end.

(** Lines 134-147. *)
Definition allocatePort (w : World) : M Port :=
  do s <- getState ;;
  match scanPorts w (instances s) 100 (nextPort s) 0 with
  | (port, attempts, ev) =>
      emits ev ;;;
      if attempts >=? 100 then throw NoAvailablePorts
      else modify (withNextPort (port + 1)) ;;; ret port
  end.

Definition touch (port : Port) (t : Z) (s : State) : State :=
  withInstances (JsMap.update port (setLastUsed t) (instances s)) s.

Definition register (port : Port) (i : Instance) (s : State) : State :=
  withInstances (JsMap.set port i (instances s)) s.

(** Lines 134-187: allocate a port, spawn, wait, connect, register. *)
Definition spawnInstance (w : World) : M (Port * Client) :=
  do port <- allocatePort w ;;
  emit (EvSpawn port (spawnHandle w port)) ;;;
  waitForServer w port ;;;
  do c <- createMcpClient w port ;;
  modify (fun s =>
    register port (mkInstance (spawnHandle w port) c (now w) (session s)) s) ;;;
  modify (withAssigned (Some port) (Some c)) ;;;
  ret (port, c).

Definition getOrCreateInstance (w : World) : M (Port * Client) :=
  do s <- getState ;;
  match cached s with
  | Some (port, c) =>
      modify (touch port (now w)) ;;; ret (port, c)
  | None =>
      evictIfFull w ;;; spawnInstance w
  end.

(** ** The handler of the process ['exit'] event (index.js, lines 160-167) *)

Definition onExit (port : Port) (s : State) : State :=
  let s1 := withInstances (JsMap.delete port (instances s)) s in
  match assignedPort s1 with
  | Some p => if p =? port then withAssigned None None s1 else s1
  | None => s1
  end.

(** ** proxyToolCall (index.js, lines 208-241) *)

Definition textResult (t : string) (err : option bool) : ToolResult :=
  mkToolResult (Some [mkContent "text" t]) err.

(** [args || {}], the arguments being an opaque JSON text. *)
Definition argsOrEmpty (args : option string) : string :=
  match args with
  | Some a => a
  | None => "{}"
  end.

Definition callToolM (w : World) (c : Client) (name args : string)
  : M RemoteResult :=
  emit (EvCallTool c name args) ;;;
  match callTool w c name args with
  | inl e => throw e
  | inr r => ret r
  end.

(** Line 222 evaluates [JSON.stringify(result).slice(0, 500)]; on
    [undefined], [JSON.stringify] returns [undefined] and [.slice] raises. *)
Definition logResult (r : RemoteResult) : M unit :=
  match r with
  | RUndefined =>
      throw (TypeError "Cannot read properties of undefined (reading 'slice')")
  | _ => ret tt
  end.

Definition proxyToolCall (w : World) (toolName : string)
  (args : option string) : M ToolResult :=
  do pc <- getOrCreateInstance w ;;
  do s <- getState ;;
  (match assignedPort s with
   | Some p =>
       if truthy (Some p) && JsMap.has p (instances s)
       then modify (touch p (touchNow w)) else ret tt
   | None => ret tt
   end) ;;;
  tryCatch
    (do result <- callToolM w (snd pc) toolName (argsOrEmpty args) ;;
     logResult result ;;;
     match result with
     | RObject r =>
         match content r with
         | Some _ => ret r
         | None => ret (textResult (JSON_stringify w result) None)
         end
     | _ => ret (textResult (JSON_stringify w result) None)
     end)
    (fun error => ret (textResult ("Error: " ++ message error) (Some true))).

(** ** The cleanup timer (index.js, lines 269-277) *)

Fixpoint forEach {A} (l : list A) (body : A -> M unit) : M unit :=
  match l with
  | [] => ret tt
  | x :: l' => body x ;;; forEach l' body
  end.

(** One tick.  The loop visits the entries present when it starts: the
    only entry a visit removes is the visited one.  The source starts
    [killInstance] for each idle entry without awaiting it, so what follows
    its [close()] runs once that call is settled; here each kill is run to
    its end in turn. *)
(** The test of line 272. *)
Definition timedOut (w : World) (e : Port * Instance) : bool :=
  now w - lastUsed (snd e) >? INSTANCE_TIMEOUT_MS.

Definition cleanupTick (w : World) : M unit :=
  do s <- getState ;;
  forEach (instances s) (fun e =>
    if timedOut w e then killInstance w (fst e) else ret tt).

(** ** Well-formed states *)

Fixpoint nodupKeys (m : JsMap.t) : bool :=
  match m with
  | [] => true
  | (p, _) :: m' => negb (JsMap.has p m') && nodupKeys m'
  end.

Definition portsOk (m : JsMap.t) : bool :=
  forallb (fun e => BASE_PORT <=? fst e) m.

(** The cached channel is the channel of the assigned entry. *)
Definition coherent (s : State) : bool :=
  match assignedPort s, assignedClient s with
  | Some p, Some c =>
      match JsMap.get p (instances s) with
      | Some i => client i =? c
      | None => true
      end
  | _, _ => true
  end.

Definition wf (s : State) : bool :=
  nodupKeys (instances s) && portsOk (instances s)
  && (BASE_PORT <=? nextPort s) && coherent s.

(** The invariant of the state: a port is the key of one entry, every
    port of the pool and the cursor are at least [BASE_PORT] (the allocator
    hands out nothing below it), and the cached channel is the channel of
    the assigned entry. *)
Definition Inv (s : State) : Prop := wf s = true.

(** The invariant of the Pool of the data model: [|Pool| <= MAX_INSTANCES]. *)
Definition withinCapacity (s : State) : Prop :=
  (JsMap.size (instances s) <= MAX_INSTANCES)%nat.

(** The processes killed in a list of events. *)
Definition kills (ev : list Event) : list Process :=
  flat_map (fun e => match e with EvProcessKill p => [p] | _ => [] end) ev.

(** The ports spawned on in a list of events. *)
Definition spawns (ev : list Event) : list Port :=
  flat_map (fun e => match e with EvSpawn p _ => [p] | _ => [] end) ev.

(** What killing an entry adds to the event log. *)
Definition killEvents (e : Port * Instance) : list Event :=
  [EvClose (client (snd e)); EvProcessKill (process (snd e))].

(** ** Concrete worlds and states used to instantiate the theorems *)

(** Every port can be bound, the second health probe answers, [connect]
    and [close] succeed, [callTool] answers with an empty content. *)
Definition calmWorld (t : Z) : World :=
  mkWorld t (fun _ => false) (fun p => p + 10000) 0
    [Failed 3100; Responded 4200 200]
    (fun p => inr (p + 20000))
    (fun _ => None)
    t
    (fun _ _ _ => inr (RObject (mkToolResult (Some []) None)))
    (fun _ => "null"%string).

Definition worker (p : Port) (t : Z) : Port * Instance :=
  (p, mkInstance (p + 10000) (p + 20000) t "session-1").

Definition minute : Z := 60 * 1000.

(** Two workers at minute 31: one last used at minute 0, one at minute 2. *)
Definition twoWorkers : State :=
  mkState [worker 9000 0; worker 9001 (2 * minute)] 9002
    (Some 9001) (Some 29001) "session-1".

(** A world for [waitForServer]: the wait starts at [start] and the health
    probes end as listed. *)
Definition probeWorld (start : Z) (ps : list Probe) : World :=
  mkWorld start (fun _ => false) (fun p => p + 10000) start ps
    (fun p => inr (p + 20000)) (fun _ => None) start
    (fun _ _ _ => inr RNull) (fun _ => "null"%string).

(** The events of [n] failed probes, each followed by the one-second timer. *)
Definition retries (port : Port) (fs : list Z) : list Event :=
  flat_map (fun _ => [EvHealthProbe port; EvSleep 1000]) fs.

(** Ten workers, none assigned to the session; the least [lastUsed], 20,
    is shared by the ports 9001, 9003 and 9009. *)
Definition fullPool : State :=
  mkState
    [worker 9000 50; worker 9001 20; worker 9002 70; worker 9003 20;
     worker 9004 90; worker 9005 30; worker 9006 60; worker 9007 80;
     worker 9008 40; worker 9009 20]
    9010 None None "session-1".

(** A worker is obtained, then its process exits. *)
Definition spawnThenExit (w : World) (s : State) : State :=
  match getOrCreateInstance w s with
  | (Ret (port, _), s', _) => onExit port s'
  | (_, s', _) => s'
  end.

(** Lines 214-216 of [proxyToolCall] as a function on states. *)
Definition touchAssigned (w : World) (s : State) : State :=
  match assignedPort s with
  | Some p =>
      if truthy (Some p) && JsMap.has p (instances s)
      then touch p (touchNow w) s else s
  | None => s
  end.

(** The ways forwarding a call fails, each with the result the dispatcher
    gives for it: [callTool] rejects (channel error, protocol error, any
    thrown exception); [callTool] resolves to [undefined]; the remote worker
    reports an error in a result [{ content: [...], isError: true }]. *)
Inductive forwardFails : Error + RemoteResult -> ToolResult -> Prop :=
| CallRejected (e : Error) :
    forwardFails (inl e)
      (mkToolResult (Some [mkContent "text" ("Error: " ++ message e)])
         (Some true))
| CallUndefined :
    forwardFails (inr RUndefined)
      (mkToolResult
         (Some [mkContent "text"
                  ("Error: " ++
                   "Cannot read properties of undefined (reading 'slice')")])
         (Some true))
| RemoteReported (items : list Content) :
    forwardFails (inr (RObject (mkToolResult (Some items) (Some true))))
      (mkToolResult (Some items) (Some true)).

(** No health probe is ever answered: every probe is refused, the last one
    46 seconds after the start of the wait. *)
Definition deafWorld : World :=
  mkWorld 0 (fun _ => false) (fun p => p + 10000) 0
    [Failed 3010; Failed 24000; Failed 46000]
    (fun p => inr (p + 20000)) (fun _ => None) 0
    (fun _ _ _ => inr RNull) (fun _ => "null"%string).

(** The call channel is broken: [callTool] rejects. *)
Definition brokenChannelWorld : World :=
  mkWorld 0 (fun _ => false) (fun p => p + 10000) 0
    [Responded 3500 200]
    (fun p => inr (p + 20000)) (fun _ => None) 10
    (fun _ _ _ => inl (CallFailed "Connection closed"))
    (fun _ => "null"%string).

(** ** The states the program goes through *)

(** One step of the program: a call served to its end, a kill, the exit
    of a worker process, a tick of the cleanup timer. *)
Inductive step : State -> State -> Prop :=
| StepGetOrCreate (w : World) (s : State) :
    step s (final (getOrCreateInstance w s))
| StepProxy (w : World) (name : string) (args : option string) (s : State) :
    step s (final (proxyToolCall w name args s))
| StepKill (w : World) (port : Port) (s : State) :
    step s (final (killInstance w port s))
| StepExit (port : Port) (s : State) :
    step s (onExit port s)
| StepTick (w : World) (s : State) :
    step s (final (cleanupTick w s)).

Inductive reachable (sid : string) : State -> Prop :=
| ReachInitial : reachable sid (initial sid)
| ReachStep (s s' : State) :
    reachable sid s -> step s s' -> reachable sid s'.

(** ** getPoolStatus (index.js, lines 246-266) *)

Record StatusEntry := mkStatusEntry {
  st_port : Port;
  st_sessionId : string;
  st_idleMinutes : Z
}.

(** The object handed to [JSON.stringify] at line 258. *)
Record PoolStatus := mkPoolStatus {
  ps_instances : list StatusEntry;
  ps_maxInstances : nat;
  ps_thisSession : string;
  ps_assignedPort : option Port
}.

(** [Math.round(d / 60000)] for an integer [d]: the integer nearest to the
    quotient, a tie going up.  (The quotient is a double in the source; for
    [|d| < 2^52], which millisecond clocks are far below, it is never
    rounded across a half-integer, so the nearest integer is that of the
    exact quotient.) *)
Definition roundMinutes (d : Z) : Z := (d + 30000) / 60000.

(** Lines 247-254.  [nowAt port] is what [Date.now()] returns while the
    entry of [port] is visited. *)
Definition statusEntries (nowAt : Port -> Z) (m : JsMap.t) : list StatusEntry :=
  map (fun e =>
         mkStatusEntry (fst e) (sessionId (snd e))
           (roundMinutes (nowAt (fst e) - lastUsed (snd e))))
      m.

Definition poolStatus (nowAt : Port -> Z) (s : State) : PoolStatus :=
  mkPoolStatus (statusEntries nowAt (instances s)) MAX_INSTANCES
    (session s) (assignedPort s).

(** [stringify] stands for [JSON.stringify(_, null, 2)]. *)
Definition getPoolStatus (stringify : PoolStatus -> string)
  (nowAt : Port -> Z) (s : State) : ToolResult :=
  textResult (stringify (poolStatus nowAt s)) None.

(** ** The shutdown handler (index.js, lines 403-409) *)

(** What a call [killInstance(port)] that is not awaited has done when it
    hands control back: an [async] function runs up to its first [await],
    so [close()] has been called and nothing after it has run. *)
Definition killInstanceStart (port : Port) : M unit :=
  do s <- getState ;;
  match JsMap.get port (instances s) with
  | Some instance => emit (EvClose (client instance))
  | None => ret tt
  end.

(** [cleanup]: a kill is started for every port, then [process.exit(0)]
    ends the process at once, before any suspended [killInstance] resumes.
    The value returned is the exit code. *)
Definition cleanup : M Z :=
  do s <- getState ;;
  forEach (instances s) (fun e => killInstanceStart (fst e)) ;;;
  ret 0.

(** ** The order in which ports are tried *)

(** The [k]-th port the loop of lines 136-143 looks at. *)
Definition candidate (start : Port) (k : nat) : Port :=
  Nat.iter k advance start.

(** The test of line 137 failed: the port is tracked or cannot be bound. *)
Definition busy (w : World) (m : JsMap.t) (port : Port) : bool :=
  JsMap.has port m || isPortInUse w port.

(** The number of [advance] steps from [c] to [q], 1000 standing for
    "never" (more than the loop ever makes). *)
Definition gap (q c : Port) : Z :=
  if c =? q then 0
  else if q >? BASE_PORT + 100 then 1000
  else if c >? BASE_PORT + 100 then
    (if q <? BASE_PORT then 1000 else q - BASE_PORT + 1)
  else if c <? q then q - c
  else if q <? BASE_PORT then 1000
  else q - c + 101.

(** The port just before [p] in the cycle of the range. *)
Definition predecessor (p : Port) : Port :=
  if p =? BASE_PORT then BASE_PORT + 100 else p - 1.

(** At most one entry, and it is the session's. *)
Definition singleWorker (s : State) : Prop :=
  match instances s with
  | [] => True
  | [(p, i)] => assignedPort s = Some p /\ assignedClient s = Some (client i)
  | _ => False
  end.

(** A state with one worker, assigned to the session. *)
Definition oneWorker (t : Z) : State :=
  mkState [worker 9000 t] 9001 (Some 9000) (Some 29000) "session-1".

(** * Properties *)

(** ** The map *)

Section JsMapFacts.

Import JsMap.

Lemma has_true_iff p m : has p m = true <-> exists i, get p m = Some i.
Proof.
  unfold has. destruct (get p m) as [i|]; split; intros H;
    try discriminate; eauto.
  destruct H as [i H]; discriminate.
Qed.

Lemma has_false_iff p m : has p m = false <-> get p m = None.
Proof.
  unfold has. destruct (get p m); split; intros H; congruence.
Qed.

Lemma get_In p i m : get p m = Some i -> In (p, i) m.
Proof.
  induction m as [|[q j] m IH]; simpl; [discriminate|].
  destruct (Z.eqb_spec q p) as [->|_]; intros H.
  - injection H as ->. now left.
  - right. auto.
Qed.

Lemma has_keys p m : has p m = true <-> In p (keys m).
Proof.
  unfold has, keys.
  induction m as [|[q j] m IH]; simpl.
  - split; [discriminate | tauto].
  - destruct (Z.eqb_spec q p) as [->|Hne].
    + split; auto.
    + rewrite IH. split; [tauto|]. intros [H|H]; [contradiction | exact H].
Qed.

Lemma In_has p i m : In (p, i) m -> has p m = true.
Proof.
  intros H. apply has_keys. unfold keys.
  change p with (fst (p, i)). now apply in_map.
Qed.

Lemma get_app p m1 m2 :
  get p (m1 ++ m2) =
  match get p m1 with Some i => Some i | None => get p m2 end.
Proof.
  induction m1 as [|[q j] m1 IH]; simpl; [reflexivity|].
  destruct (q =? p); auto.
Qed.

Lemma has_app p m1 m2 : has p (m1 ++ m2) = has p m1 || has p m2.
Proof.
  unfold has. rewrite get_app. now destruct (get p m1).
Qed.

Lemma delete_absent p m : has p m = false -> delete p m = m.
Proof.
  unfold has.
  induction m as [|[q j] m IH]; simpl; [reflexivity|].
  destruct (q =? p); [discriminate|].
  intros H. now rewrite IH.
Qed.

Lemma get_delete_same p m : get p (delete p m) = None.
Proof.
  induction m as [|[q j] m IH]; simpl; [reflexivity|].
  destruct (Z.eqb_spec q p) as [->|Hne]; [exact IH|].
  simpl. destruct (Z.eqb_spec q p); [contradiction | exact IH].
Qed.

Lemma get_delete_other p q m : q <> p -> get q (delete p m) = get q m.
Proof.
  intros Hqp.
  induction m as [|[r j] m IH]; simpl; [reflexivity|].
  destruct (Z.eqb_spec r p) as [->|Hne].
  - destruct (Z.eqb_spec p q); [congruence | exact IH].
  - simpl. now rewrite IH.
Qed.

Lemma has_delete p q m :
  has q (delete p m) = negb (q =? p) && has q m.
Proof.
  unfold has. destruct (Z.eqb_spec q p) as [->|Hne]; simpl.
  - now rewrite get_delete_same.
  - now rewrite get_delete_other.
Qed.

Lemma delete_app p m1 m2 : delete p (m1 ++ m2) = delete p m1 ++ delete p m2.
Proof.
  induction m1 as [|[q j] m1 IH]; simpl; [reflexivity|].
  destruct (q =? p); simpl; now rewrite IH.
Qed.

Lemma delete_incl p m e : In e (delete p m) -> In e m.
Proof.
  induction m as [|[q j] m IH]; simpl; [tauto|].
  destruct (q =? p); simpl; intuition.
Qed.

Lemma keys_update p f m : keys (update p f m) = keys m.
Proof.
  unfold keys.
  induction m as [|[q j] m IH]; simpl; [reflexivity|].
  destruct (q =? p); simpl; [reflexivity | now rewrite IH].
Qed.

Lemma size_update p f m : size (update p f m) = size m.
Proof.
  unfold size. rewrite <- (length_map fst (update p f m)).
  change (map fst (update p f m)) with (keys (update p f m)).
  rewrite keys_update. apply length_map.
Qed.

Lemma get_update_same p f m :
  get p (update p f m) = option_map f (get p m).
Proof.
  induction m as [|[q j] m IH]; simpl; [reflexivity|].
  destruct (Z.eqb_spec q p) as [->|Hne]; simpl.
  - now rewrite Z.eqb_refl.
  - destruct (Z.eqb_spec q p); [contradiction | exact IH].
Qed.

Lemma get_update_other p q f m : q <> p -> get q (update p f m) = get q m.
Proof.
  intros Hqp.
  induction m as [|[r j] m IH]; simpl; [reflexivity|].
  destruct (Z.eqb_spec r p) as [->|Hne]; simpl.
  - destruct (Z.eqb_spec p q); [congruence | reflexivity].
  - now rewrite IH.
Qed.

Lemma has_update p q f m : has q (update p f m) = has q m.
Proof.
  unfold has. destruct (Z.eq_dec q p) as [->|Hne].
  - rewrite get_update_same. now destruct (get p m).
  - now rewrite get_update_other.
Qed.

Lemma set_absent p i m : has p m = false -> set p i m = m ++ [(p, i)].
Proof. unfold set. now intros ->. Qed.

Lemma get_set_same p i m : get p (set p i m) = Some i.
Proof.
  unfold set. destruct (has p m) eqn:H.
  - rewrite get_update_same. apply has_true_iff in H as [j ->]. reflexivity.
  - apply has_false_iff in H. rewrite get_app, H. simpl.
    now rewrite Z.eqb_refl.
Qed.

Lemma get_set_other p q i m : q <> p -> get q (set p i m) = get q m.
Proof.
  intros Hqp. unfold set. destruct (has p m).
  - now apply get_update_other.
  - rewrite get_app. destruct (get q m); [reflexivity|]. simpl.
    destruct (Z.eqb_spec p q); congruence.
Qed.

End JsMapFacts.

(** ** Well-formedness of the map under its operations *)

Section WellFormedMap.

Import JsMap.

Lemma nodupKeys_app m1 m2 :
  nodupKeys (m1 ++ m2) = true <->
  nodupKeys m1 = true /\ nodupKeys m2 = true /\
  (forall p, has p m1 = true -> has p m2 = false).
Proof.
  induction m1 as [|[q j] m1 IH]; simpl.
  - split; [intros H; repeat split; auto; discriminate | tauto].
  - rewrite !andb_true_iff, !negb_true_iff, has_app, orb_false_iff, IH.
    split.
    + intros [[Hq1 Hq2] (H1 & H2 & H3)]. repeat split; auto.
      intros p. unfold has at 1. simpl.
      destruct (Z.eqb_spec q p) as [->|_]; auto.
    + intros ([Hq1 H1] & H2 & H3). repeat split; auto.
      * apply H3. unfold has. simpl. now rewrite Z.eqb_refl.
      * intros p Hp. apply H3. unfold has in *. simpl.
        destruct (q =? p); auto.
Qed.

Lemma nodupKeys_delete p m : nodupKeys m = true -> nodupKeys (delete p m) = true.
Proof.
  induction m as [|[q j] m IH]; simpl; [reflexivity|].
  rewrite andb_true_iff, negb_true_iff. intros [Hq Hm].
  destruct (q =? p); simpl; auto.
  rewrite has_delete, Hq, andb_false_r. simpl. auto.
Qed.

Lemma nodupKeys_update p f m : nodupKeys m = true -> nodupKeys (update p f m) = true.
Proof.
  induction m as [|[q j] m IH]; simpl; [reflexivity|].
  rewrite andb_true_iff, negb_true_iff. intros [Hq Hm].
  destruct (q =? p); simpl.
  - now rewrite Hq, Hm.
  - rewrite has_update, Hq. simpl. auto.
Qed.

Lemma nodupKeys_snoc p i m :
  nodupKeys m = true -> has p m = false -> nodupKeys (m ++ [(p, i)]) = true.
Proof.
  intros Hm Hp. apply nodupKeys_app. repeat split; auto.
  intros q Hq. unfold has. simpl.
  destruct (Z.eqb_spec p q) as [->|_]; [congruence | reflexivity].
Qed.

(** Without duplicate keys, deleting the key of an entry removes that
    entry and nothing else. *)
Lemma delete_entry pre p i post :
  nodupKeys (pre ++ (p, i) :: post) = true ->
  delete p (pre ++ (p, i) :: post) = pre ++ post.
Proof.
  intros H. apply nodupKeys_app in H as (_ & H2 & H3).
  simpl in H2. apply andb_true_iff in H2 as [Hp _].
  apply negb_true_iff in Hp.
  rewrite delete_app. simpl. rewrite Z.eqb_refl.
  rewrite (delete_absent p post Hp).
  f_equal. apply delete_absent.
  destruct (has p pre) eqn:E; [|reflexivity].
  specialize (H3 p E). unfold has in H3. simpl in H3.
  now rewrite Z.eqb_refl in H3.
Qed.

Lemma get_entry pre p i post :
  nodupKeys (pre ++ (p, i) :: post) = true ->
  get p (pre ++ (p, i) :: post) = Some i.
Proof.
  intros H. apply nodupKeys_app in H as (_ & _ & H3).
  rewrite get_app. simpl. rewrite Z.eqb_refl.
  destruct (get p pre) eqn:E; [|reflexivity].
  assert (Hp : has p pre = true) by (apply has_true_iff; eauto).
  specialize (H3 p Hp). unfold has in H3. simpl in H3.
  now rewrite Z.eqb_refl in H3.
Qed.

Lemma get_split p i m :
  get p m = Some i -> exists pre post, m = pre ++ (p, i) :: post.
Proof.
  intros H. apply get_In in H. now apply in_split.
Qed.

Lemma size_delete p m :
  nodupKeys m = true -> has p m = true -> S (size (delete p m)) = size m.
Proof.
  intros Hm Hp. apply has_true_iff in Hp as [i Hi].
  destruct (get_split _ _ _ Hi) as (pre & post & ->).
  rewrite delete_entry by assumption.
  unfold size. rewrite !length_app. simpl. lia.
Qed.

Lemma portsOk_delete p m : portsOk m = true -> portsOk (delete p m) = true.
Proof.
  unfold portsOk. rewrite !forallb_forall.
  intros H e He. apply H. eapply delete_incl; eauto.
Qed.

Lemma portsOk_update p f m : portsOk m = true -> portsOk (update p f m) = true.
Proof.
  unfold portsOk.
  induction m as [|[q j] m IH]; simpl; [reflexivity|].
  rewrite andb_true_iff. intros [Hq Hm].
  destruct (q =? p); simpl; rewrite Hq; simpl; auto.
Qed.

Lemma portsOk_snoc p i m :
  portsOk m = true -> BASE_PORT <= p -> portsOk (m ++ [(p, i)]) = true.
Proof.
  unfold portsOk. intros Hm Hp. rewrite forallb_app.
  apply andb_true_iff. split; [exact Hm|]. simpl.
  rewrite andb_true_r. now apply Z.leb_le.
Qed.

Lemma portsOk_get p i m : portsOk m = true -> get p m = Some i -> BASE_PORT <= p.
Proof.
  unfold portsOk. rewrite forallb_forall. intros H Hg.
  apply get_In in Hg. apply H in Hg. simpl in Hg. now apply Z.leb_le.
Qed.

End WellFormedMap.

(** ** killInstance *)

Lemma killInstance_absent w port s :
  JsMap.get port (instances s) = None ->
  killInstance w port s = (Ret tt, s, []).
Proof.
  intros H. unfold killInstance, bind, getState. now rewrite H.
Qed.

Lemma killInstance_present w port s inst :
  JsMap.get port (instances s) = Some inst ->
  killInstance w port s =
  (Ret tt, withInstances (JsMap.delete port (instances s)) s,
   [EvClose (client inst); EvProcessKill (process inst)]).
Proof.
  intros H. unfold killInstance, bind, getState, tryCatch, closeM.
  rewrite H. unfold bind, emit, modify, ret, throw.
  destruct (closeClient w (client inst)); reflexivity.
Qed.

Lemma killInstance_assignment w port s :
  assignedPort (final (killInstance w port s)) = assignedPort s /\
  assignedClient (final (killInstance w port s)) = assignedClient s /\
  nextPort (final (killInstance w port s)) = nextPort s /\
  session (final (killInstance w port s)) = session s.
Proof.
  destruct (JsMap.get port (instances s)) as [inst|] eqn:H.
  - rewrite (killInstance_present _ _ _ _ H). simpl. auto.
  - rewrite (killInstance_absent _ _ _ H). simpl. auto.
Qed.

(** ** The cleanup timer *)

Lemma withInstances_same s : withInstances (instances s) s = s.
Proof. now destruct s. Qed.

Lemma cleanup_loop w l : forall pre s,
  instances s = pre ++ l ->
  nodupKeys (pre ++ l) = true ->
  forEach l (fun e => if timedOut w e then killInstance w (fst e) else ret tt) s
  = (Ret tt,
     withInstances (pre ++ filter (fun e => negb (timedOut w e)) l) s,
     flat_map killEvents (filter (timedOut w) l)).
Proof.
  induction l as [|[p i] l IH]; intros pre s Hs Hnd.
  - simpl. unfold ret. rewrite <- Hs, withInstances_same. reflexivity.
  - cbn [forEach filter]. unfold bind at 1.
    destruct (timedOut w (p, i)) eqn:Hidle; cbn [negb fst].
    + assert (Hg : JsMap.get p (instances s) = Some i)
        by (rewrite Hs; now apply get_entry).
      rewrite (killInstance_present _ _ _ _ Hg).
      rewrite Hs, delete_entry by assumption.
      rewrite (IH pre (withInstances (pre ++ l) s)); [reflexivity | reflexivity |].
      rewrite <- (delete_entry pre p i l Hnd).
      now apply nodupKeys_delete.
    + unfold ret at 1.
      rewrite (IH (pre ++ [(p, i)]) s).
      * rewrite <- app_assoc. reflexivity.
      * rewrite <- app_assoc. exact Hs.
      * rewrite <- app_assoc. exact Hnd.
Qed.

(** One tick keeps exactly the entries that are not timed out, in their
    order and unchanged, and kills each of the others once. *)
Lemma cleanupTick_run w s :
  nodupKeys (instances s) = true ->
  cleanupTick w s =
  (Ret tt,
   withInstances (filter (fun e => negb (timedOut w e)) (instances s)) s,
   flat_map killEvents (filter (timedOut w) (instances s))).
Proof.
  intros Hnd. unfold cleanupTick, bind, getState.
  rewrite (cleanup_loop w (instances s) [] s); auto.
Qed.

(** ** Facts read off the invariant *)

Lemma Inv_parts s :
  Inv s ->
  nodupKeys (instances s) = true /\ portsOk (instances s) = true /\
  BASE_PORT <= nextPort s /\ coherent s = true.
Proof.
  unfold Inv, wf. rewrite !andb_true_iff, Z.leb_le. tauto.
Qed.

Lemma Inv_intro s :
  nodupKeys (instances s) = true -> portsOk (instances s) = true ->
  BASE_PORT <= nextPort s -> coherent s = true ->
  Inv s.
Proof.
  unfold Inv, wf. rewrite !andb_true_iff, Z.leb_le. tauto.
Qed.

Lemma In_get p i m :
  nodupKeys m = true -> In (p, i) m -> JsMap.get p m = Some i.
Proof.
  induction m as [|[q j] m IH]; simpl; [tauto|].
  rewrite andb_true_iff, negb_true_iff. intros [Hq Hm] [H|H].
  - injection H as -> ->. now rewrite Z.eqb_refl.
  - destruct (Z.eqb_spec q p) as [->|_]; [|auto].
    apply In_has in H. congruence.
Qed.

Lemma get_filter_kept keep p i m :
  JsMap.get p m = Some i -> keep (p, i) = true ->
  JsMap.get p (filter keep m) = Some i.
Proof.
  induction m as [|[q j] m IH]; simpl; [discriminate|].
  destruct (Z.eqb_spec q p) as [->|Hne]; intros Hg Hk.
  - injection Hg as ->. rewrite Hk. simpl. now rewrite Z.eqb_refl.
  - destruct (keep (q, j)); simpl; auto.
    destruct (Z.eqb_spec q p); [contradiction | auto].
Qed.

Lemma has_filter_dropped keep p i m :
  nodupKeys m = true -> JsMap.get p m = Some i -> keep (p, i) = false ->
  JsMap.has p (filter keep m) = false.
Proof.
  intros Hnd Hg Hk.
  destruct (JsMap.has p (filter keep m)) eqn:E; [|reflexivity].
  apply has_true_iff in E as [j Hj]. apply get_In in Hj.
  apply filter_In in Hj as [Hin Hkj].
  apply (In_get _ _ _ Hnd) in Hin. congruence.
Qed.

Lemma kills_killEvents l :
  kills (flat_map killEvents l) = map (fun e => process (snd e)) l.
Proof.
  induction l as [|e l IH]; simpl; [reflexivity|]. now rewrite <- IH.
Qed.

(** C6. On a tick of the idle reaper every Worker whose idle time
    [now - lastUsed] strictly exceeds [INSTANCE_TIMEOUT_MS] (30 minutes) is
    killed and removed from the Pool, and every other Worker is left as it
    was: the Pool after the tick is the Pool before it without the timed-out
    entries, and exactly their processes are killed. *)
Theorem cleanupTick_reaps_idle (w : World) (s : State) :
  Inv s ->
  outcome (cleanupTick w s) = Ret tt /\
  instances (final (cleanupTick w s)) =
    filter (fun e => negb (timedOut w e)) (instances s) /\
  kills (events (cleanupTick w s)) =
    map (fun e => process (snd e)) (filter (timedOut w) (instances s)) /\
  (forall p i, JsMap.get p (instances s) = Some i ->
     (now w - lastUsed i > INSTANCE_TIMEOUT_MS ->
        JsMap.has p (instances (final (cleanupTick w s))) = false /\
        In (process i) (kills (events (cleanupTick w s)))) /\
     (now w - lastUsed i <= INSTANCE_TIMEOUT_MS ->
        JsMap.get p (instances (final (cleanupTick w s))) = Some i)).
Proof.
  intros HI. destruct (Inv_parts s HI) as (Hnd & _).
  rewrite (cleanupTick_run w s Hnd). cbn [outcome final events fst snd].
  rewrite kills_killEvents.
  repeat split.
  - eapply has_filter_dropped; eauto.
    unfold timedOut. cbn [snd]. apply negb_false_iff. now apply Z.gtb_gt.
  - apply (in_map (fun e => process (snd e)) _ (p, i)).
    apply filter_In. split; [now apply get_In|].
    unfold timedOut. cbn [snd]. now apply Z.gtb_gt.
  - intros Hle. apply get_filter_kept; auto.
    unfold timedOut. cbn [snd]. apply negb_true_iff.
    destruct (Z.gtb_spec (now w - lastUsed i) INSTANCE_TIMEOUT_MS); [lia | reflexivity].
Qed.

(** At minute 31 the worker last used at minute 0 (idle 31 minutes) is
    killed, the one last used at minute 2 (idle 29 minutes) stays. *)
Lemma cleanupTick_reaps_idle_witness :
  Inv twoWorkers /\
  instances (final (cleanupTick (calmWorld (31 * minute)) twoWorkers)) =
    [worker 9001 (2 * minute)] /\
  kills (events (cleanupTick (calmWorld (31 * minute)) twoWorkers)) = [19000].
Proof.
  split; [reflexivity|].
  destruct (cleanupTick_reaps_idle (calmWorld (31 * minute)) twoWorkers eq_refl)
    as (_ & Hpool & Hkills & _).
  split; [rewrite Hpool | rewrite Hkills]; reflexivity.
Defined.

(** C8. Killing is idempotent: [killInstance] on a port with no entry in
    the Pool changes nothing and does nothing, so a second kill of the same
    port after a first one is a no-op and two kills in a row equal one; and
    when [close()] on the call channel rejects, the rejection is swallowed:
    the kill still returns normally, the process is killed and the entry is
    removed. *)
Theorem killInstance_idempotent (w w' : World) (port : Port) (s : State) :
  (JsMap.has port (instances s) = false ->
     killInstance w port s = (Ret tt, s, [])) /\
  killInstance w' port (final (killInstance w port s)) =
    (Ret tt, final (killInstance w port s), []) /\
  (killInstance w port ;;; killInstance w' port) s = killInstance w port s /\
  (forall inst e,
     JsMap.get port (instances s) = Some inst ->
     closeClient w (client inst) = Some e ->
     killInstance w port s =
       (Ret tt, withInstances (JsMap.delete port (instances s)) s,
        [EvClose (client inst); EvProcessKill (process inst)]) /\
     JsMap.has port (instances (final (killInstance w port s))) = false).
Proof.
  assert (Hsecond : killInstance w' port (final (killInstance w port s)) =
                    (Ret tt, final (killInstance w port s), [])).
  { apply killInstance_absent.
    destruct (JsMap.get port (instances s)) as [inst|] eqn:H.
    - rewrite (killInstance_present _ _ _ _ H). cbn [final fst snd withInstances instances].
      apply get_delete_same.
    - rewrite (killInstance_absent _ _ _ H). exact H. }
  repeat split.
  - intros H. apply killInstance_absent. now apply has_false_iff.
  - exact Hsecond.
  - unfold bind. unfold final in Hsecond.
    destruct (killInstance w port s) as [[[[]| |] s1] ev1] eqn:E;
      cbn [fst snd] in *; try reflexivity.
    rewrite Hsecond. now rewrite app_nil_r.
  - now apply killInstance_present.
  - rewrite (killInstance_present _ _ _ _ H). cbn [final fst snd withInstances instances].
    apply has_false_iff, get_delete_same.
Qed.

(** A kill whose [close()] rejects, on a pool of two workers. *)
Lemma killInstance_idempotent_witness :
  let w := mkWorld 0 (fun _ => false) (fun p => p + 10000) 0 []
             (fun p => inr (p + 20000)) (fun _ => Some (CloseFailed "closed"))
             0 (fun _ _ _ => inr RNull) (fun _ => "null"%string) in
  JsMap.get 9000 (instances twoWorkers) = Some (snd (worker 9000 0)) /\
  closeClient w 29000 = Some (CloseFailed "closed") /\
  JsMap.has 9002 (instances twoWorkers) = false /\
  instances (final (killInstance w 9000 twoWorkers)) = [worker 9001 (2 * minute)] /\
  killInstance w 9002 twoWorkers = (Ret tt, twoWorkers, []).
Proof.
  intros w.
  split; [reflexivity|]. split; [reflexivity|]. split; [reflexivity|].
  split.
  - pose proof (killInstance_idempotent w w 9000 twoWorkers) as (_ & _ & _ & H).
    destruct (H (snd (worker 9000 0)) (CloseFailed "closed") eq_refl eq_refl)
      as [-> _].
    reflexivity.
  - exact (proj1 (killInstance_idempotent w w 9002 twoWorkers) eq_refl).
Defined.

(** ** waitForServer *)

Lemma check_failed_prefix port timeout start fs : forall rest s,
  Forall (fun t => t - start <= timeout) fs ->
  check port timeout start (map Failed fs ++ rest) s =
  match check port timeout start rest s with
  | (r, s', ev) => (r, s', retries port fs ++ ev)
  end.
Proof.
  induction fs as [|f fs IH]; intros rest s Hall.
  - simpl. now destruct (check port timeout start rest s) as [[r s'] ev].
  - inversion Hall as [|? ? Hf Hfs]; subst.
    cbn [map app check]. unfold bind at 1. unfold emit at 1.
    destruct (Z.gtb_spec (f - start) timeout) as [Hgt|_]; [lia|].
    unfold bind at 1. unfold emit at 1.
    rewrite (IH rest s Hfs).
    destruct (check port timeout start rest s) as [[r s'] ev].
    reflexivity.
Qed.

Lemma check_state port timeout start ps s :
  final (check port timeout start ps s) = s.
Proof.
  induction ps as [|[t st|t] ps IH]; cbn [check]; unfold bind, emit; simpl;
    try reflexivity.
  destruct (t - start >? timeout); simpl; [reflexivity|].
  unfold final in IH.
  destruct (check port timeout start ps s) as [[[]] ev]; simpl in *; auto.
Qed.

Lemma waitForServer_state w port s : final (waitForServer w port s) = s.
Proof.
  unfold waitForServer, waitForServerWith, bind, emit.
  pose proof (check_state port 45000 (waitStart w) (probes w) s) as H.
  unfold final in *.
  destruct (check port 45000 (waitStart w) (probes w) s) as [[[]] ev];
    simpl in *; auto.
Qed.

(** C7 (amended). After a fixed 3-second delay the port is probed; each
    probe that fails no later than 45 seconds after the start of the wait is
    followed, one second later, by the next probe.  The wait resolves as
    ready on the first probe that is answered, whatever the status of the
    answer and whenever it arrives; it fails with the timeout error on the
    first probe whose failure is seen more than 45 seconds after the start
    of the wait. *)
Theorem waitForServer_settles (w : World) (port : Port) (s : State)
  (fs : list Z) :
  Forall (fun t => t - waitStart w <= 45000) fs ->
  (forall t status rest,
     probes w = map Failed fs ++ Responded t status :: rest ->
     waitForServer w port s =
       (Ret tt, s,
        EvSleep 3000 :: retries port fs ++ [EvHealthProbe port])) /\
  (forall t rest,
     probes w = map Failed fs ++ Failed t :: rest ->
     t - waitStart w > 45000 ->
     waitForServer w port s =
       (Threw (WaitTimeout port), s,
        EvSleep 3000 :: retries port fs ++ [EvHealthProbe port])).
Proof.
  intros Hall. split.
  - intros t status rest Hp.
    unfold waitForServer, waitForServerWith, bind at 1, emit at 1.
    rewrite Hp, check_failed_prefix by assumption.
    reflexivity.
  - intros t rest Hp Ht.
    unfold waitForServer, waitForServerWith, bind at 1, emit at 1.
    rewrite Hp, check_failed_prefix by assumption.
    cbn [check]. unfold bind, emit.
    destruct (Z.gtb_spec (t - waitStart w) 45000) as [_|Hle]; [|lia].
    reflexivity.
Qed.

(** Two refused probes, then an answer with status 404: ready. *)
Lemma waitForServer_settles_witness :
  let w := probeWorld 0 [Failed 3050; Failed 4100; Responded 5200 404] in
  Forall (fun t => t - waitStart w <= 45000) [3050; 4100] /\
  waitForServer w 9000 (initial "s") =
    (Ret tt, initial "s",
     [EvSleep 3000; EvHealthProbe 9000; EvSleep 1000; EvHealthProbe 9000;
      EvSleep 1000; EvHealthProbe 9000]).
Proof.
  intros w.
  assert (H : Forall (fun t => t - waitStart w <= 45000) [3050; 4100]).
  { repeat constructor; simpl; lia. }
  split; [exact H|].
  exact (proj1 (waitForServer_settles w 9000 (initial "s") [3050; 4100] H)
           5200 404 [] eq_refl).
Defined.

(** C7, as stated, fails: no response arrives within the 45 seconds (the
    only one arrives at 46.0 s, to the probe sent after the failure seen at
    44.9 s), and the wait does not fail with the timeout error: it resolves
    as ready. *)
Lemma waitForServer_late_response :
  let w := probeWorld 0 [Failed 44900; Responded 46000 200] in
  (forall t status, In (Responded t status) (probes w) ->
     t - waitStart w > 45000) /\
  outcome (waitForServer w 9000 (initial "s")) = Ret tt /\
  outcome (waitForServer w 9000 (initial "s")) <> Threw (WaitTimeout 9000).
Proof.
  intros w. split; [|split].
  - intros t status [H|[H|[]]]; [discriminate|].
    injection H as <- _. simpl. lia.
  - reflexivity.
  - discriminate.
Qed.

(** ** Port allocation *)

Lemma advance_range port :
  (BASE_PORT <= port -> BASE_PORT <= advance port) /\
  advance port <= BASE_PORT + 100.
Proof.
  unfold advance, BASE_PORT.
  destruct (Z.gtb_spec (port + 1) (9000 + 100)); lia.
Qed.

(** The loop ends because a free port was found or because 100 attempts
    were made, never because the fuel of the model ran out. *)
Lemma scanPorts_exit w m : forall fuel port attempts p a ev,
  scanPorts w m fuel port attempts = (p, a, ev) ->
  attempts <= 100 -> 100 <= attempts + Z.of_nat fuel ->
  (a < 100 /\ attempts <= a /\
   JsMap.has p m = false /\ isPortInUse w p = false) \/ a = 100.
Proof.
  induction fuel as [|fuel IH]; intros port attempts p a ev H Hle Hfuel.
  - simpl in H. injection H as <- <- <-. right. lia.
  - cbn [scanPorts] in H.
    destruct (Z.ltb_spec attempts 100) as [Hlt|Hge].
    + unfold portFree in H.
      destruct (JsMap.has port m) eqn:Hhas.
      * destruct (scanPorts w m fuel (advance port) (attempts + 1))
          as [[p' a'] ev'] eqn:E.
        injection H as <- <- <-.
        assert (Ha : attempts + 1 <= 100) by lia.
        assert (Hf : 100 <= attempts + 1 + Z.of_nat fuel) by lia.
        assert (Hih := IH _ _ _ _ _ E Ha Hf).
        destruct Hih as [(H1 & H2 & H3 & H4)|H1];
          [left; split; [|split; [|split]]; try assumption; lia | now right].
      * destruct (isPortInUse w port) eqn:Huse; cbn [negb] in H.
        -- destruct (scanPorts w m fuel (advance port) (attempts + 1))
             as [[p' a'] ev'] eqn:E.
           injection H as <- <- <-.
           assert (Ha : attempts + 1 <= 100) by lia.
        assert (Hf : 100 <= attempts + 1 + Z.of_nat fuel) by lia.
        assert (Hih := IH _ _ _ _ _ E Ha Hf).
           destruct Hih as [(H1 & H2 & H3 & H4)|H1];
             [left; split; [|split; [|split]]; try assumption; lia | now right].
        -- injection H as <- <- <-. left. repeat split; auto; lia.
    + injection H as <- <- <-. right. lia.
Qed.

(** A scan started at or above [BASE_PORT] stays there. *)
Lemma scanPorts_lower w m : forall fuel port attempts p a ev,
  scanPorts w m fuel port attempts = (p, a, ev) ->
  BASE_PORT <= port -> BASE_PORT <= p.
Proof.
  induction fuel as [|fuel IH]; intros port attempts p a ev H Hlo.
  - simpl in H. now injection H as <- <- <-.
  - cbn [scanPorts] in H.
    destruct (attempts <? 100); [|now injection H as <- <- <-].
    destruct (portFree w m port) as [[|] evp].
    + now injection H as <- <- <-.
    + destruct (scanPorts w m fuel (advance port) (attempts + 1))
        as [[p' a'] ev'] eqn:E.
      injection H as <- <- <-.
      eapply IH; eauto. now apply advance_range.
Qed.

(** A scan started inside [[BASE_PORT, BASE_PORT + 100]] stays inside. *)
Lemma scanPorts_range w m : forall fuel port attempts p a ev,
  scanPorts w m fuel port attempts = (p, a, ev) ->
  BASE_PORT <= port <= BASE_PORT + 100 ->
  BASE_PORT <= p <= BASE_PORT + 100.
Proof.
  induction fuel as [|fuel IH]; intros port attempts p a ev H Hin.
  - simpl in H. now injection H as <- <- <-.
  - cbn [scanPorts] in H.
    destruct (attempts <? 100); [|now injection H as <- <- <-].
    destruct (portFree w m port) as [[|] evp].
    + now injection H as <- <- <-.
    + destruct (scanPorts w m fuel (advance port) (attempts + 1))
        as [[p' a'] ev'] eqn:E.
      injection H as <- <- <-.
      eapply IH; eauto.
      pose proof (advance_range port). lia.
Qed.

(** The scan only probes; it neither kills nor spawns. *)
Lemma scanPorts_events w m : forall fuel port attempts p a ev,
  scanPorts w m fuel port attempts = (p, a, ev) ->
  kills ev = [] /\ spawns ev = [].
Proof.
  induction fuel as [|fuel IH]; intros port attempts p a ev H.
  - simpl in H. injection H as <- <- <-. auto.
  - cbn [scanPorts] in H.
    destruct (attempts <? 100); [|injection H as <- <- <-; auto].
    unfold portFree in H.
    destruct (JsMap.has port m).
    + destruct (scanPorts w m fuel (advance port) (attempts + 1))
        as [[p' a'] ev'] eqn:E.
      injection H as <- <- <-. simpl. eauto.
    + destruct (negb (isPortInUse w port)).
      * injection H as <- <- <-. auto.
      * destruct (scanPorts w m fuel (advance port) (attempts + 1))
          as [[p' a'] ev'] eqn:E.
        injection H as <- <- <-. simpl. eauto.
Qed.

Lemma allocatePort_run w s :
  allocatePort w s =
  match scanPorts w (instances s) 100 (nextPort s) 0 with
  | (port, attempts, ev) =>
      if attempts >=? 100 then (Threw NoAvailablePorts, s, ev)
      else (Ret port, withNextPort (port + 1) s, ev)
  end.
Proof.
  unfold allocatePort, bind at 1, getState.
  destruct (scanPorts w (instances s) 100 (nextPort s) 0) as [[port a] ev].
  unfold bind, emits, throw, modify, ret. simpl.
  destruct (a >=? 100); simpl; now rewrite ?app_nil_r.
Qed.

(** ** spawnInstance, case by case *)

Lemma spawnInstance_run w s :
  spawnInstance w s =
  match scanPorts w (instances s) 100 (nextPort s) 0 with
  | (port, attempts, evp) =>
      if attempts >=? 100 then (Threw NoAvailablePorts, s, evp)
      else
        let s1 := withNextPort (port + 1) s in
        let spawned := EvSpawn port (spawnHandle w port) in
        match waitForServer w port s1 with
        | (Ret _, _, evw) =>
            match connectClient w port with
            | inr c =>
                (Ret (port, c),
                 withAssigned (Some port) (Some c)
                   (register port
                      (mkInstance (spawnHandle w port) c (now w) (session s))
                      s1),
                 evp ++ spawned :: evw ++ [EvConnect port])
            | inl e => (Threw e, s1, evp ++ spawned :: evw ++ [EvConnect port])
            end
        | (Threw e, _, evw) => (Threw e, s1, evp ++ spawned :: evw)
        | (Pending, _, evw) => (Pending, s1, evp ++ spawned :: evw)
        end
  end.
Proof.
  unfold spawnInstance, bind at 1. rewrite allocatePort_run.
  destruct (scanPorts w (instances s) 100 (nextPort s) 0) as [[port a] evp].
  destruct (a >=? 100); [reflexivity|].
  cbv zeta. unfold bind at 1, emit at 1. unfold bind at 1.
  pose proof (waitForServer_state w port (withNextPort (port + 1) s)) as Hst.
  unfold final in Hst.
  destruct (waitForServer w port (withNextPort (port + 1) s))
    as [[[[]|e|] sw] evw]; cbn [fst snd] in Hst; subst sw;
    cbn [app]; try reflexivity.
  unfold bind at 1, createMcpClient, bind at 1, emit at 1.
  destruct (connectClient w port) as [e|c]; unfold throw, ret.
  - cbn [app]. reflexivity.
  - unfold bind, modify, ret. cbn [app]. rewrite ?app_nil_r. reflexivity.
Qed.

(** ** Eviction *)

(** The loop of lines 122-127, started on an entry already selected: the
    entry it ends on is the first one of minimal [lastUsed]. *)
Lemma findOldest_from l : forall pre vp vi post,
  (forall e, In e pre -> lastUsed vi < lastUsed (snd e)) ->
  (forall e, In e post -> lastUsed vi <= lastUsed (snd e)) ->
  exists pre' vp' vi' post',
    pre ++ (vp, vi) :: post ++ l = pre' ++ (vp', vi') :: post' /\
    fold_left oldestStep l (Some vp, Some (lastUsed vi)) =
      (Some vp', Some (lastUsed vi')) /\
    (forall e, In e pre' -> lastUsed vi' < lastUsed (snd e)) /\
    (forall e, In e post' -> lastUsed vi' <= lastUsed (snd e)).
Proof.
  induction l as [|[q j] l IH]; intros pre vp vi post Hpre Hpost.
  - exists pre, vp, vi, post. rewrite app_nil_r. auto.
  - cbn [fold_left]. unfold oldestStep at 2. cbn [fst snd ltTime].
    destruct (Z.ltb_spec (lastUsed j) (lastUsed vi)) as [Hlt|Hge].
    + destruct (IH (pre ++ (vp, vi) :: post) q j []) as
        (pre' & vp' & vi' & post' & Heq & Hfold & H1 & H2).
      * intros e He. apply in_app_or in He as [He|[<-|He]].
        -- specialize (Hpre e He). lia.
        -- simpl. lia.
        -- specialize (Hpost e He). lia.
      * intros e [].
      * exists pre', vp', vi', post'. repeat split; auto.
        rewrite <- Heq. rewrite <- app_assoc. reflexivity.
    + destruct (IH pre vp vi (post ++ [(q, j)])) as
        (pre' & vp' & vi' & post' & Heq & Hfold & H1 & H2); auto.
      * intros e He. apply in_app_or in He as [He|[<-|[]]]; auto.
      * exists pre', vp', vi', post'. repeat split; auto.
        rewrite <- Heq. rewrite <- app_assoc. reflexivity.
Qed.

Lemma findOldest_split m :
  m <> [] ->
  exists pre vp vi post,
    m = pre ++ (vp, vi) :: post /\
    findOldest m = (Some vp, Some (lastUsed vi)) /\
    (forall e, In e pre -> lastUsed vi < lastUsed (snd e)) /\
    (forall e, In e post -> lastUsed vi <= lastUsed (snd e)).
Proof.
  destruct m as [|[q j] l]; [congruence|]. intros _.
  destruct (findOldest_from l [] q j []) as
    (pre & vp & vi & post & Heq & Hfold & H1 & H2);
    try (intros e []).
  exists pre, vp, vi, post. repeat split; auto.
Qed.

Lemma evictIfFull_below w s :
  (JsMap.size (instances s) < MAX_INSTANCES)%nat ->
  evictIfFull w s = (Ret tt, s, []).
Proof.
  intros H. unfold evictIfFull, bind, getState.
  destruct (Nat.leb_spec MAX_INSTANCES (JsMap.size (instances s))); [lia|].
  reflexivity.
Qed.

(** At capacity, the first entry of minimal [lastUsed] is killed. *)
Lemma evictIfFull_full w s :
  nodupKeys (instances s) = true -> portsOk (instances s) = true ->
  (MAX_INSTANCES <= JsMap.size (instances s))%nat ->
  exists pre vp vi post,
    instances s = pre ++ (vp, vi) :: post /\
    (forall e, In e pre -> lastUsed vi < lastUsed (snd e)) /\
    (forall e, In e post -> lastUsed vi <= lastUsed (snd e)) /\
    evictIfFull w s =
      (Ret tt, withInstances (pre ++ post) s, killEvents (vp, vi)).
Proof.
  intros Hnd Hports Hfull.
  assert (Hne : instances s <> []).
  { intros E. rewrite E in Hfull. unfold MAX_INSTANCES in Hfull.
    simpl in Hfull. lia. }
  destruct (findOldest_split _ Hne) as (pre & vp & vi & post & Hm & Hf & H1 & H2).
  exists pre, vp, vi, post. repeat split; auto.
  assert (Hg : JsMap.get vp (instances s) = Some vi)
    by (rewrite Hm; apply get_entry; now rewrite <- Hm).
  unfold evictIfFull, bind at 1, getState.
  destruct (Nat.leb_spec MAX_INSTANCES (JsMap.size (instances s))); [|lia].
  rewrite Hf. cbn [fst truthy].
  pose proof (portsOk_get _ _ _ Hports Hg) as Hlo. unfold BASE_PORT in Hlo.
  destruct (Z.eqb_spec vp 0) as [->|_]; [lia|]. cbn [negb].
  rewrite (killInstance_present _ _ _ _ Hg). cbn [app].
  rewrite Hm at 1. rewrite delete_entry by (now rewrite <- Hm).
  reflexivity.
Qed.

(** Whatever the state, the capacity check returns normally, only ever
    removes entries, spawns nothing and leaves the rest of the state. *)
Lemma evictIfFull_shape w s :
  exists m ev,
    evictIfFull w s = (Ret tt, withInstances m s, ev) /\
    (forall e, In e m -> In e (instances s)) /\
    ((JsMap.size (instances s) < MAX_INSTANCES)%nat -> m = instances s) /\
    spawns ev = [].
Proof.
  unfold evictIfFull, bind at 1, getState.
  destruct (Nat.leb_spec MAX_INSTANCES (JsMap.size (instances s))) as [Hfull|Hlt].
  - assert (Hsame : exists m ev,
              (Ret tt, s, @nil Event) = (Ret tt, withInstances m s, ev) /\
              (forall e, In e m -> In e (instances s)) /\
              ((JsMap.size (instances s) < MAX_INSTANCES)%nat -> m = instances s) /\
              spawns ev = []).
    { exists (instances s), []. rewrite withInstances_same. auto. }
    destruct (fst (findOldest (instances s))) as [vp|]; [|exact Hsame].
    destruct (truthy (Some vp)); [|exact Hsame].
    destruct (JsMap.get vp (instances s)) as [vi|] eqn:Hg.
    + rewrite (killInstance_present _ _ _ _ Hg).
      exists (JsMap.delete vp (instances s)), (killEvents (vp, vi)).
      repeat split; auto.
      * intros e. apply delete_incl.
      * intros H. lia.
    + rewrite (killInstance_absent _ _ _ Hg). exact Hsame.
  - exists (instances s), []. rewrite withInstances_same. auto.
Qed.

(** ** getOrCreateInstance, case by case *)

Lemma getOrCreate_cached w s port c :
  cached s = Some (port, c) ->
  getOrCreateInstance w s = (Ret (port, c), touch port (now w) s, []).
Proof.
  intros H. unfold getOrCreateInstance, bind at 1, getState. rewrite H.
  reflexivity.
Qed.

Lemma getOrCreate_fresh w s :
  cached s = None ->
  getOrCreateInstance w s = (evictIfFull w ;;; spawnInstance w) s.
Proof.
  intros H. unfold getOrCreateInstance, bind at 1, getState. rewrite H.
  cbn [app]. now destruct ((evictIfFull w;;; spawnInstance w) s) as [[r s'] ev].
Qed.

Lemma cached_Some s p c :
  cached s = Some (p, c) <->
  assignedPort s = Some p /\ assignedClient s = Some c /\ p <> 0 /\
  JsMap.has p (instances s) = true.
Proof.
  unfold cached, truthy.
  destruct (assignedClient s) as [c'|], (assignedPort s) as [p'|];
    try (split; [discriminate | intros (? & ? & _); discriminate]).
  destruct (Z.eqb_spec p' 0) as [->|Hne]; cbn [negb andb].
  - split; [discriminate|]. intros (H & _ & Hp & _). congruence.
  - destruct (JsMap.has p' (instances s)) eqn:Hhas.
    + split.
      * intros H. injection H as <- <-. auto.
      * intros (H1 & H2 & _). congruence.
    + split; [discriminate|]. intros (H1 & _ & _ & H4). congruence.
Qed.

(** ** The invariant is kept by every operation *)

Lemma size_delete_le p m : (JsMap.size (JsMap.delete p m) <= JsMap.size m)%nat.
Proof.
  unfold JsMap.size. induction m as [|[q j] m IH]; simpl; [lia|].
  destruct (q =? p); simpl; lia.
Qed.

Lemma Inv_initial sid : Inv (initial sid).
Proof. reflexivity. Qed.

Lemma coherent_delete p s :
  coherent s = true ->
  coherent (withInstances (JsMap.delete p (instances s)) s) = true.
Proof.
  unfold coherent. cbn [withInstances assignedPort assignedClient instances].
  destruct (assignedPort s) as [a|]; [|reflexivity].
  destruct (assignedClient s) as [c|]; [|reflexivity].
  destruct (Z.eq_dec a p) as [->|Hne].
  - now rewrite get_delete_same.
  - now rewrite get_delete_other.
Qed.

Lemma Inv_delete p s :
  Inv s -> Inv (withInstances (JsMap.delete p (instances s)) s).
Proof.
  intros HI. destruct (Inv_parts s HI) as (Hnd & Hp & Hn & Hc).
  apply Inv_intro; cbn [withInstances instances nextPort].
  - now apply nodupKeys_delete.
  - now apply portsOk_delete.
  - exact Hn.
  - now apply coherent_delete.
Qed.

Lemma Inv_touch p t s : Inv s -> Inv (touch p t s).
Proof.
  intros HI. destruct (Inv_parts s HI) as (Hnd & Hp & Hn & Hc).
  apply Inv_intro; unfold touch; cbn [withInstances instances nextPort].
  - now apply nodupKeys_update.
  - now apply portsOk_update.
  - exact Hn.
  - revert Hc. unfold coherent.
    cbn [withInstances assignedPort assignedClient instances].
    destruct (assignedPort s) as [a|]; [|reflexivity].
    destruct (assignedClient s) as [c|]; [|reflexivity].
    destruct (Z.eq_dec a p) as [->|Hne].
    + rewrite get_update_same. now destruct (JsMap.get p (instances s)).
    + now rewrite get_update_other.
Qed.

Lemma Inv_killInstance w p s : Inv s -> Inv (final (killInstance w p s)).
Proof.
  intros HI. destruct (JsMap.get p (instances s)) as [i|] eqn:Hg.
  - rewrite (killInstance_present _ _ _ _ Hg). now apply Inv_delete.
  - now rewrite (killInstance_absent _ _ _ Hg).
Qed.

Lemma Inv_onExit p s : Inv s -> Inv (onExit p s).
Proof.
  intros HI. apply (Inv_delete p) in HI. unfold onExit.
  set (s1 := withInstances (JsMap.delete p (instances s)) s) in *.
  destruct (assignedPort s1) as [a|]; [|exact HI].
  destruct (a =? p); [|exact HI].
  destruct (Inv_parts s1 HI) as (Hnd & Hp & Hn & Hc).
  now apply Inv_intro.
Qed.

Lemma Inv_evictIfFull w s : Inv s -> Inv (final (evictIfFull w s)).
Proof.
  intros HI. destruct (Inv_parts s HI) as (Hnd & Hp & Hn & Hc).
  destruct (Nat.leb_spec MAX_INSTANCES (JsMap.size (instances s))) as [Hfull|Hlt].
  - destruct (evictIfFull_full w s Hnd Hp Hfull) as
      (pre & vp & vi & post & Hm & _ & _ & Hrun).
    rewrite Hrun. cbn [final fst snd].
    rewrite <- (delete_entry pre vp vi post) by (now rewrite <- Hm).
    rewrite <- Hm. now apply Inv_delete.
  - now rewrite (evictIfFull_below w s Hlt).
Qed.

(** After the capacity check of a pool within capacity there is room for
    one more entry. *)
Lemma evictIfFull_makes_room w s :
  Inv s -> withinCapacity s ->
  (JsMap.size (instances (final (evictIfFull w s))) < MAX_INSTANCES)%nat.
Proof.
  unfold withinCapacity.
  intros HI Hsz. destruct (Inv_parts s HI) as (Hnd & Hp & Hn & Hc).
  destruct (Nat.leb_spec MAX_INSTANCES (JsMap.size (instances s))) as [Hfull|Hlt].
  - destruct (evictIfFull_full w s Hnd Hp Hfull) as
      (pre & vp & vi & post & Hm & _ & _ & Hrun).
    rewrite Hrun. cbn [final fst snd withInstances instances].
    rewrite Hm in Hsz. unfold JsMap.size in *.
    rewrite length_app in *. simpl in Hsz. lia.
  - now rewrite (evictIfFull_below w s Hlt).
Qed.

Lemma Inv_spawnInstance w s : Inv s -> Inv (final (spawnInstance w s)).
Proof.
  intros HI. destruct (Inv_parts s HI) as (Hnd & Hp & Hn & Hc).
  rewrite spawnInstance_run.
  destruct (scanPorts w (instances s) 100 (nextPort s) 0)
    as [[port a] evp] eqn:Hscan.
  destruct (Z.geb_spec a 100) as [Hge|Hlt]; [exact HI|].
  cbv zeta.
  assert (Hlo : BASE_PORT <= port) by (eapply scanPorts_lower; eauto).
  assert (Hfree : JsMap.has port (instances s) = false).
  { destruct (scanPorts_exit _ _ _ _ _ _ _ _ Hscan) as [(_ & _ & H & _)|H];
      [lia | simpl; lia | exact H | lia]. }
  assert (HI1 : Inv (withNextPort (port + 1) s)).
  { apply Inv_intro; cbn [withNextPort instances nextPort]; auto. lia. }
  destruct (waitForServer w port (withNextPort (port + 1) s))
    as [[[[]|e|] sw] evw]; cbn [final fst snd]; try exact HI1.
  destruct (connectClient w port) as [e|c]; cbn [final fst snd]; [exact HI1|].
  apply Inv_intro;
    unfold register; cbn [withAssigned withInstances withNextPort instances nextPort];
    rewrite ?set_absent by assumption.
  - now apply nodupKeys_snoc.
  - now apply portsOk_snoc.
  - lia.
  - unfold coherent.
    cbn [withAssigned withInstances withNextPort assignedPort assignedClient instances].
    rewrite get_app. apply has_false_iff in Hfree. rewrite Hfree.
    simpl. rewrite Z.eqb_refl. simpl. apply Z.eqb_refl.
Qed.

(** A spawn adds at most one entry. *)
Lemma spawnInstance_size w s :
  (JsMap.size (instances (final (spawnInstance w s)))
   <= S (JsMap.size (instances s)))%nat.
Proof.
  rewrite spawnInstance_run.
  destruct (scanPorts w (instances s) 100 (nextPort s) 0)
    as [[port a] evp] eqn:Hscan.
  destruct (a >=? 100); [cbn [final fst snd]; lia|].
  cbv zeta.
  destruct (waitForServer w port (withNextPort (port + 1) s))
    as [[[[]|e|] sw] evw]; cbn [final fst snd withNextPort instances];
    try lia.
  destruct (connectClient w port) as [e|c];
    cbn [final fst snd withNextPort instances]; [lia|].
  unfold register, JsMap.set.
  cbn [withAssigned withInstances withNextPort instances].
  destruct (JsMap.has port (instances s)).
  - rewrite size_update. lia.
  - unfold JsMap.size. rewrite length_app. simpl. lia.
Qed.

Lemma Inv_getOrCreateInstance w s :
  Inv s -> Inv (final (getOrCreateInstance w s)).
Proof.
  intros HI. destruct (cached s) as [[p c]|] eqn:Hc.
  - rewrite (getOrCreate_cached _ _ _ _ Hc). now apply Inv_touch.
  - rewrite (getOrCreate_fresh _ _ Hc).
    pose proof (Inv_evictIfFull w s HI) as HI1.
    destruct (evictIfFull_shape w s) as (m & ev & Hrun & _).
    unfold bind. rewrite Hrun in *. cbn [final fst snd] in HI1.
    pose proof (Inv_spawnInstance w _ HI1) as HI2.
    destruct (spawnInstance w (withInstances m s)) as [[r s2] ev2].
    exact HI2.
Qed.

(** [|Pool| <= MAX_INSTANCES] is kept by [getOrCreateInstance]. *)
Lemma withinCapacity_getOrCreateInstance w s :
  Inv s -> withinCapacity s ->
  withinCapacity (final (getOrCreateInstance w s)).
Proof.
  intros HI Hsz. unfold withinCapacity in *.
  destruct (cached s) as [[p c]|] eqn:Hc.
  - rewrite (getOrCreate_cached _ _ _ _ Hc). unfold touch.
    cbn [final fst snd withInstances instances]. now rewrite size_update.
  - rewrite (getOrCreate_fresh _ _ Hc).
    pose proof (evictIfFull_makes_room w s HI Hsz) as Hroom.
    destruct (evictIfFull_shape w s) as (m & ev & Hrun & _).
    unfold bind. rewrite Hrun in *. cbn [final fst snd] in Hroom.
    pose proof (spawnInstance_size w (withInstances m s)) as Hadd.
    destruct (spawnInstance w (withInstances m s)) as [[r s2] ev2].
    cbn [final fst snd] in *. lia.
Qed.

Lemma Inv_cleanupTick w s : Inv s -> Inv (final (cleanupTick w s)).
Proof.
  intros HI. destruct (Inv_parts s HI) as (Hnd & Hp & Hn & Hc).
  rewrite (cleanupTick_run w s Hnd). cbn [final fst snd].
  set (keep := fun e => negb (timedOut w e)).
  assert (Hsub : forall e, In e (filter keep (instances s)) -> In e (instances s))
    by (intros e He; now apply filter_In in He).
  apply Inv_intro; cbn [withInstances instances nextPort]; auto.
  - clear -Hnd. induction (instances s) as [|[q j] m IH]; [reflexivity|].
    simpl in Hnd. apply andb_true_iff in Hnd as [Hq Hm].
    simpl. destruct (keep (q, j)); simpl; auto.
    rewrite (IH Hm), andb_true_r.
    apply negb_true_iff in Hq. apply negb_true_iff.
    destruct (JsMap.has q (filter keep m)) eqn:E; [|reflexivity].
    apply has_true_iff in E as [i Hi]. apply get_In, filter_In in Hi as [Hi _].
    apply In_has in Hi. congruence.
  - unfold portsOk in *. rewrite forallb_forall in *. auto.
  - revert Hc. unfold coherent.
    cbn [withInstances assignedPort assignedClient instances].
    destruct (assignedPort s) as [a|]; [|reflexivity].
    destruct (assignedClient s) as [c|]; [|reflexivity].
    destruct (JsMap.get a (filter keep (instances s))) as [i|] eqn:E;
      [|reflexivity].
    apply get_In, filter_In in E as [E _].
    now rewrite (In_get _ _ _ Hnd E).
Qed.

(** ** What the events of the parts contain *)

Lemma kills_app ev1 ev2 : kills (ev1 ++ ev2) = kills ev1 ++ kills ev2.
Proof. apply flat_map_app. Qed.

Lemma spawns_app ev1 ev2 : spawns (ev1 ++ ev2) = spawns ev1 ++ spawns ev2.
Proof. apply flat_map_app. Qed.

Lemma check_quiet port timeout start ps s :
  kills (events (check port timeout start ps s)) = [] /\
  spawns (events (check port timeout start ps s)) = [].
Proof.
  induction ps as [|[t st|t] ps IH]; cbn [check]; unfold bind, emit; simpl;
    auto.
  destruct (t - start >? timeout); simpl; auto.
  unfold events in IH.
  destruct (check port timeout start ps s) as [[[]] ev]; simpl in *; auto.
Qed.

Lemma waitForServer_quiet w port s :
  kills (events (waitForServer w port s)) = [] /\
  spawns (events (waitForServer w port s)) = [].
Proof.
  unfold waitForServer, waitForServerWith, bind, emit.
  pose proof (check_quiet port 45000 (waitStart w) (probes w) s) as H.
  unfold events in *.
  destruct (check port 45000 (waitStart w) (probes w) s) as [[[]] ev];
    simpl in *; auto.
Qed.

(** ** The run of a call that has no cached worker *)

Lemma getOrCreate_fresh_run w s :
  cached s = None ->
  exists m eve,
    evictIfFull w s = (Ret tt, withInstances m s, eve) /\
    (forall e, In e m -> In e (instances s)) /\
    ((JsMap.size (instances s) < MAX_INSTANCES)%nat -> m = instances s) /\
    spawns eve = [] /\
    getOrCreateInstance w s =
      match spawnInstance w (withInstances m s) with
      | (r, s2, ev2) => (r, s2, eve ++ ev2)
      end.
Proof.
  intros Hc. destruct (evictIfFull_shape w s) as (m & eve & Hrun & H1 & H2 & H3).
  exists m, eve. repeat split; auto.
  rewrite (getOrCreate_fresh _ _ Hc). unfold bind. now rewrite Hrun.
Qed.

(** A successful call without a cached worker, taken apart. *)
Lemma getOrCreate_fresh_success w s port c s' ev :
  cached s = None ->
  getOrCreateInstance w s = (Ret (port, c), s', ev) ->
  exists m eve a evp evw,
    evictIfFull w s = (Ret tt, withInstances m s, eve) /\
    scanPorts w m 100 (nextPort s) 0 = (port, a, evp) /\
    a < 100 /\
    events (waitForServer w port (withNextPort (port + 1) (withInstances m s)))
      = evw /\
    connectClient w port = inr c /\
    s' = withAssigned (Some port) (Some c)
           (register port
              (mkInstance (spawnHandle w port) c (now w) (session s))
              (withNextPort (port + 1) (withInstances m s))) /\
    ev = eve ++ evp ++ EvSpawn port (spawnHandle w port) :: evw
             ++ [EvConnect port].
Proof.
  intros Hc Hrun.
  destruct (getOrCreate_fresh_run w s Hc) as (m & eve & He & _ & _ & _ & Hg).
  rewrite Hg, spawnInstance_run in Hrun. clear Hg.
  cbn [withInstances instances nextPort] in Hrun.
  destruct (scanPorts w m 100 (nextPort s) 0) as [[p a] evp] eqn:Hscan.
  destruct (Z.geb_spec a 100) as [Hge|Hlt]; [discriminate|].
  cbv zeta in Hrun.
  destruct (waitForServer w p (withNextPort (p + 1) (withInstances m s)))
    as [[[[]|e|] sw] evw] eqn:Hw; try discriminate.
  destruct (connectClient w p) as [e|c'] eqn:Hconn; [discriminate|].
  injection Hrun as <- <- <- <-.
  exists m, eve, a, evp, evw. rewrite Hw. repeat split; auto.
Qed.

Lemma getOrCreate_result_cached w s pc s1 ev1 :
  Inv s ->
  getOrCreateInstance w s = (Ret pc, s1, ev1) ->
  cached s1 = Some pc.
Proof.
  intros HI Hrun. destruct (cached s) as [[p c]|] eqn:Hc.
  - rewrite (getOrCreate_cached _ _ _ _ Hc) in Hrun.
    injection Hrun as <- <- <-.
    apply cached_Some in Hc as (H1 & H2 & H3 & H4).
    apply cached_Some. unfold touch. cbn [withInstances assignedPort assignedClient instances].
    now rewrite has_update.
  - destruct pc as [port c].
    destruct (getOrCreate_fresh_success _ _ _ _ _ _ Hc Hrun) as
      (m & eve & a & evp & evw & He & Hscan & Ha & _ & Hconn & -> & _).
    apply cached_Some.
    unfold register.
    cbn [withAssigned withInstances withNextPort assignedPort assignedClient instances].
    repeat split.
    + pose proof (Inv_evictIfFull w s HI) as HI1. rewrite He in HI1.
      destruct (Inv_parts _ HI1) as (_ & _ & Hn & _).
      cbn [final fst snd withInstances nextPort] in Hn.
      pose proof (scanPorts_lower _ _ _ _ _ _ _ _ Hscan Hn) as Hlo.
      unfold BASE_PORT in Hlo. lia.
    + apply has_true_iff. eexists. apply get_set_same.
Qed.

(** C2. When the session's assigned Worker is still in the Pool,
    [getOrCreateInstance] stamps that Worker's [lastUsed] with the current
    time and returns it (its port and its call channel), with no event at
    all: nothing is spawned, no port is probed or allocated, and the Pool
    keeps the same ports in the same order, every other entry unchanged.  So
    a second call right after a successful one returns the same Worker and
    spawns nothing. *)
Theorem getOrCreate_reuses_assigned (w w2 : World) (s : State) :
  Inv s ->
  (forall p c inst,
     assignedPort s = Some p -> assignedClient s = Some c ->
     JsMap.get p (instances s) = Some inst ->
     getOrCreateInstance w s = (Ret (p, c), touch p (now w) s, []) /\
     client inst = c /\
     JsMap.get p (instances (touch p (now w) s)) =
       Some (setLastUsed (now w) inst) /\
     JsMap.get p (instances (final (getOrCreateInstance w s))) =
       Some (mkInstance (process inst) (client inst) (now w) (sessionId inst)) /\
     (forall inst',
        JsMap.get p (instances (final (getOrCreateInstance w s))) = Some inst' ->
        lastUsed inst' = now w) /\
     (forall q, q <> p ->
        JsMap.get q (instances (touch p (now w) s)) =
        JsMap.get q (instances s)) /\
     JsMap.keys (instances (touch p (now w) s)) = JsMap.keys (instances s) /\
     nextPort (touch p (now w) s) = nextPort s) /\
  (forall pc s1 ev1,
     getOrCreateInstance w s = (Ret pc, s1, ev1) ->
     getOrCreateInstance w2 s1 = (Ret pc, touch (fst pc) (now w2) s1, []) /\
     JsMap.keys (instances (touch (fst pc) (now w2) s1)) =
       JsMap.keys (instances s1) /\
     exists inst1,
       JsMap.get (fst pc) (instances s1) = Some inst1 /\
       JsMap.get (fst pc) (instances (final (getOrCreateInstance w2 s1))) =
         Some (mkInstance (process inst1) (client inst1) (now w2)
                 (sessionId inst1))).
Proof.
  intros HI. destruct (Inv_parts s HI) as (Hnd & Hp & Hn & Hc).
  split.
  - intros p c inst Hap Hac Hg.
    assert (Hcached : cached s = Some (p, c)).
    { apply cached_Some. repeat split; auto.
      - pose proof (portsOk_get _ _ _ Hp Hg) as Hlo.
        unfold BASE_PORT in Hlo. lia.
      - apply has_true_iff. eauto. }
    assert (Hstamp :
      JsMap.get p (instances (final (getOrCreateInstance w s))) =
      Some (mkInstance (process inst) (client inst) (now w) (sessionId inst))).
    { rewrite (getOrCreate_cached _ _ _ _ Hcached).
      unfold touch. cbn [final fst snd withInstances instances].
      now rewrite get_update_same, Hg. }
    split; [now apply getOrCreate_cached|].
    split.
    { unfold coherent in Hc. rewrite Hap, Hac, Hg in Hc. now apply Z.eqb_eq. }
    split.
    { unfold touch. cbn [withInstances instances].
      now rewrite get_update_same, Hg. }
    split; [exact Hstamp|].
    split.
    { intros inst' Hg'. rewrite Hstamp in Hg'. now injection Hg' as <-. }
    unfold touch. cbn [withInstances instances nextPort].
    split; [intros q Hq; now apply get_update_other|].
    split; [apply keys_update | reflexivity].
  - intros [port c] s1 ev1 Hrun.
    pose proof (getOrCreate_result_cached _ _ _ _ _ HI Hrun) as Hc1.
    split; [now apply getOrCreate_cached|].
    split; [unfold touch; cbn [withInstances instances]; apply keys_update|].
    pose proof Hc1 as Hc2.
    apply cached_Some in Hc2 as (_ & _ & _ & Hhas).
    apply has_true_iff in Hhas as [inst1 Hg1].
    exists inst1. cbn [fst]. split; [exact Hg1|].
    rewrite (getOrCreate_cached _ _ _ _ Hc1).
    unfold touch. cbn [final fst snd withInstances instances].
    now rewrite get_update_same, Hg1.
Qed.

(** From the empty pool: the first call spawns on port 9000, the second
    returns the same worker with no event. *)
Lemma getOrCreate_reuses_assigned_witness :
  Inv (initial "session-1") /\
  getOrCreateInstance (calmWorld 5000)
    (final (getOrCreateInstance (calmWorld 0) (initial "session-1"))) =
  (Ret (9000, 29000),
   touch 9000 5000 (final (getOrCreateInstance (calmWorld 0) (initial "session-1"))),
   []) /\
  Inv (oneWorker 7) /\
  JsMap.get 9000 (instances (oneWorker 7)) = Some (mkInstance 19000 29000 7 "session-1") /\
  JsMap.get 9000
    (instances (final (getOrCreateInstance (calmWorld 5000) (oneWorker 7)))) =
    Some (mkInstance 19000 29000 5000 "session-1") /\
  forall inst',
    JsMap.get 9000
      (instances (final (getOrCreateInstance (calmWorld 5000) (oneWorker 7)))) =
      Some inst' ->
    lastUsed inst' = 5000.
Proof.
  split; [reflexivity|].
  split.
  { exact (proj1 (proj2 (getOrCreate_reuses_assigned (calmWorld 0) (calmWorld 5000)
                    (initial "session-1") eq_refl)
                  (9000, 29000) _ _ eq_refl)). }
  split; [reflexivity|]. split; [reflexivity|].
  destruct (proj1 (getOrCreate_reuses_assigned (calmWorld 5000) (calmWorld 0)
                     (oneWorker 7) eq_refl)
              9000 29000 (mkInstance 19000 29000 7 "session-1")
              eq_refl eq_refl eq_refl)
    as (_ & _ & _ & Hstamp & Hlast & _).
  split; [exact Hstamp | exact Hlast].
Defined.

(** C10. Every Worker [getOrCreateInstance] returns is in the Pool when it
    returns, under the returned port and with the returned call channel.
    [killInstance] removes the entry and leaves [assignedPort] and
    [assignedClient] as they were; the next [getOrCreateInstance] finds no
    entry under the assigned port and, when it succeeds, has spawned a
    process and returns the channel just connected to it, registered in the
    Pool. *)
Theorem getOrCreate_returns_pool_member (w w2 : World) (s : State) :
  (forall port c s' ev,
     getOrCreateInstance w s = (Ret (port, c), s', ev) ->
     exists inst,
       JsMap.get port (instances s') = Some inst /\
       (Inv s -> client inst = c)) /\
  (forall p,
     JsMap.has p (instances (final (killInstance w p s))) = false /\
     assignedPort (final (killInstance w p s)) = assignedPort s /\
     assignedClient (final (killInstance w p s)) = assignedClient s) /\
  (forall p port c s' ev,
     assignedPort s = Some p ->
     getOrCreateInstance w2 (final (killInstance w p s)) = (Ret (port, c), s', ev) ->
     spawns ev = [port] /\
     connectClient w2 port = inr c /\
     JsMap.get port (instances s') =
       Some (mkInstance (spawnHandle w2 port) c (now w2) (session s))).
Proof.
  split; [|split].
  - intros port c s' ev Hrun.
    destruct (cached s) as [[p c0]|] eqn:Hc.
    + rewrite (getOrCreate_cached _ _ _ _ Hc) in Hrun.
      injection Hrun as <- <- <- <-.
      apply cached_Some in Hc as (Hap & Hac & Hp0 & Hhas).
      apply has_true_iff in Hhas as [inst Hg].
      exists (setLastUsed (now w) inst). split.
      * unfold touch. cbn [withInstances instances].
        now rewrite get_update_same, Hg.
      * intros HI. destruct (Inv_parts s HI) as (_ & _ & _ & Hco).
        unfold coherent in Hco. rewrite Hap, Hac, Hg in Hco.
        apply Z.eqb_eq in Hco. exact Hco.
    + destruct (getOrCreate_fresh_success _ _ _ _ _ _ Hc Hrun) as
        (m & eve & a & evp & evw & _ & _ & _ & _ & _ & -> & _).
      eexists. split.
      * unfold register.
        cbn [withAssigned withInstances withNextPort instances].
        apply get_set_same.
      * reflexivity.
  - intros p. destruct (killInstance_assignment w p s) as (H1 & H2 & _).
    repeat split; auto.
    apply has_false_iff.
    destruct (JsMap.get p (instances s)) as [i|] eqn:Hg.
    + rewrite (killInstance_present _ _ _ _ Hg). apply get_delete_same.
    + now rewrite (killInstance_absent _ _ _ Hg).
  - intros p port c s' ev Hap Hrun.
    set (s1 := final (killInstance w p s)) in *.
    assert (Hc : cached s1 = None).
    { destruct (cached s1) as [[q c0]|] eqn:E; [|reflexivity].
      apply cached_Some in E as (Hq & _ & _ & Hhas).
      destruct (killInstance_assignment w p s) as (H1 & _).
      fold s1 in H1. rewrite H1, Hap in Hq. injection Hq as <-.
      assert (Hgone : JsMap.get p (instances s1) = None).
      { subst s1. destruct (JsMap.get p (instances s)) as [i|] eqn:Hg.
        - rewrite (killInstance_present _ _ _ _ Hg). apply get_delete_same.
        - now rewrite (killInstance_absent _ _ _ Hg). }
      apply has_false_iff in Hgone. congruence. }
    destruct (getOrCreate_fresh_success _ _ _ _ _ _ Hc Hrun) as
      (m & eve & a & evp & evw & He & Hscan & _ & Hw & Hconn & -> & ->).
    assert (Hsess : session s1 = session s)
      by (subst s1; apply killInstance_assignment).
    repeat split; auto.
    + destruct (evictIfFull_shape w2 s1) as (m' & eve' & He' & _ & _ & Hsp).
      rewrite He in He'. injection He' as _ <-.
      destruct (scanPorts_events _ _ _ _ _ _ _ _ Hscan) as [_ Hsp2].
      pose proof (waitForServer_quiet w2 port
                    (withNextPort (port + 1) (withInstances m s1))) as [_ Hsp3].
      rewrite Hw in Hsp3.
      rewrite !spawns_app, Hsp, Hsp2. cbn [app spawns flat_map].
      fold (spawns (evw ++ [EvConnect port])).
      rewrite spawns_app, Hsp3. reflexivity.
    + unfold register.
      cbn [withAssigned withInstances withNextPort instances].
      rewrite Hsess. apply get_set_same.
Qed.

(** The assigned worker is killed; the next call spawns again. *)
Lemma getOrCreate_returns_pool_member_witness :
  let s := final (getOrCreateInstance (calmWorld 0) (initial "session-1")) in
  assignedPort s = Some 9000 /\
  assignedPort (final (killInstance (calmWorld 1) 9000 s)) = Some 9000 /\
  JsMap.has 9000 (instances (final (killInstance (calmWorld 1) 9000 s))) = false /\
  spawns (events (getOrCreateInstance (calmWorld 2)
                    (final (killInstance (calmWorld 1) 9000 s)))) = [9001] /\
  exists inst,
    JsMap.get 9000 (instances s) = Some inst /\ (Inv (initial "session-1") -> client inst = 29000).
Proof.
  intros s.
  split; [reflexivity|]. split; [reflexivity|]. split; [reflexivity|].
  pose proof (getOrCreate_returns_pool_member (calmWorld 1) (calmWorld 2) s)
    as (_ & _ & H3).
  pose proof (getOrCreate_returns_pool_member (calmWorld 0) (calmWorld 2)
                (initial "session-1")) as (H1 & _).
  split.
  - set (r := getOrCreateInstance (calmWorld 2)
                (final (killInstance (calmWorld 1) 9000 s))).
    refine (proj1 (H3 9000 9001 29001 (final r) (events r) eq_refl _)).
    reflexivity.
  - exact (H1 9000 29000 s _ eq_refl).
Defined.

(** ** Eviction inside getOrCreateInstance *)

(** At capacity and without a cached worker, the call is the spawn run on
    the pool without the first entry of minimal [lastUsed], after the events
    of killing that entry. *)
Lemma getOrCreate_full_run w s :
  Inv s -> cached s = None ->
  (MAX_INSTANCES <= JsMap.size (instances s))%nat ->
  exists pre vp vi post,
    instances s = pre ++ (vp, vi) :: post /\
    (forall e, In e pre -> lastUsed vi < lastUsed (snd e)) /\
    (forall e, In e post -> lastUsed vi <= lastUsed (snd e)) /\
    JsMap.delete vp (instances s) = pre ++ post /\
    getOrCreateInstance w s =
      match spawnInstance w (withInstances (pre ++ post) s) with
      | (r, s2, ev2) => (r, s2, killEvents (vp, vi) ++ ev2)
      end.
Proof.
  intros HI Hc Hfull. destruct (Inv_parts s HI) as (Hnd & Hp & _).
  destruct (evictIfFull_full w s Hnd Hp Hfull) as
    (pre & vp & vi & post & Hm & H1 & H2 & Hrun).
  exists pre, vp, vi, post. repeat split; auto.
  - rewrite Hm. apply delete_entry. now rewrite <- Hm.
  - rewrite (getOrCreate_fresh _ _ Hc). unfold bind. now rewrite Hrun.
Qed.

(** C1. When the session has no live assigned Worker and the Pool holds
    at least [MAX_INSTANCES] (10) Workers, a successful
    [getOrCreateInstance] has killed exactly one Worker, one whose
    [lastUsed] is minimal across the Pool, and removed it before the new
    Worker was spawned and registered: the Pool afterwards is the old Pool
    without that entry, followed by the new entry.  It holds as many Workers
    as before, so no more than [MAX_INSTANCES] for a Pool that satisfied its
    invariant [|Pool| <= MAX_INSTANCES] before the call. *)
Theorem getOrCreate_evicts_oldest (w : World) (s : State)
  (port : Port) (c : Client) (s' : State) (ev : list Event) :
  Inv s -> cached s = None ->
  (MAX_INSTANCES <= JsMap.size (instances s))%nat ->
  getOrCreateInstance w s = (Ret (port, c), s', ev) ->
  exists vp vi,
    JsMap.get vp (instances s) = Some vi /\
    (forall q i, JsMap.get q (instances s) = Some i ->
       lastUsed vi <= lastUsed i) /\
    instances s' =
      JsMap.delete vp (instances s) ++
      [(port, mkInstance (spawnHandle w port) c (now w) (session s))] /\
    kills ev = [process vi] /\
    (exists ev2, ev = killEvents (vp, vi) ++ ev2 /\ spawns ev2 = [port]) /\
    JsMap.size (instances s') = JsMap.size (instances s) /\
    (withinCapacity s -> withinCapacity s').
Proof.
  intros HI Hc Hfull Hrun.
  destruct (Inv_parts s HI) as (Hnd & Hp & Hn & Hco).
  destruct (getOrCreate_full_run w s HI Hc Hfull) as
    (pre & vp & vi & post & Hm & H1 & H2 & Hdel & Hg).
  rewrite Hg, spawnInstance_run in Hrun. clear Hg.
  cbn [withInstances instances nextPort] in Hrun.
  destruct (scanPorts w (pre ++ post) 100 (nextPort s) 0)
    as [[p a] evp] eqn:Hscan.
  destruct (Z.geb_spec a 100) as [Hge|Hlt]; [discriminate|].
  cbv zeta in Hrun.
  pose proof (waitForServer_quiet w p
                (withNextPort (p + 1) (withInstances (pre ++ post) s)))
    as [Hk3 Hs3].
  destruct (waitForServer w p (withNextPort (p + 1) (withInstances (pre ++ post) s)))
    as [[[[]|e|] sw] evw] eqn:Hw; try discriminate.
  destruct (connectClient w p) as [e|c'] eqn:Hconn; [discriminate|].
  injection Hrun as <- <- <- <-.
  cbn [events snd] in Hk3, Hs3.
  destruct (scanPorts_events _ _ _ _ _ _ _ _ Hscan) as [Hk2 Hs2].
  assert (Hfree : JsMap.has p (pre ++ post) = false).
  { destruct (scanPorts_exit _ _ _ _ _ _ _ _ Hscan) as [(_ & _ & H & _)|H];
      [lia | simpl; lia | exact H | lia]. }
  assert (Hpool :
    instances
      (withAssigned (Some p) (Some c')
         (register p (mkInstance (spawnHandle w p) c' (now w) (session s))
            (withNextPort (p + 1) (withInstances (pre ++ post) s)))) =
    JsMap.delete vp (instances s) ++
    [(p, mkInstance (spawnHandle w p) c' (now w) (session s))]).
  { unfold register.
    cbn [withAssigned withInstances withNextPort instances].
    rewrite set_absent by assumption. now rewrite Hdel. }
  exists vp, vi. split; [|split; [|split; [|split; [|split; [|split]]]]].
  - rewrite Hm. apply get_entry. now rewrite <- Hm.
  - intros q i Hq. apply get_In in Hq. rewrite Hm in Hq.
    apply in_app_or in Hq as [Hq|[Hq|Hq]].
    + specialize (H1 _ Hq). simpl in H1. lia.
    + injection Hq as _ <-. lia.
    + specialize (H2 _ Hq). simpl in H2. lia.
  - exact Hpool.
  - unfold kills in *. cbn [flat_map app].
    rewrite flat_map_app, Hk2. cbn [flat_map app].
    rewrite flat_map_app, Hk3. reflexivity.
  - eexists. split; [reflexivity|].
    unfold spawns in *. rewrite flat_map_app, Hs2. cbn [flat_map app].
    rewrite flat_map_app, Hs3. reflexivity.
  - rewrite Hpool, Hdel, Hm. unfold JsMap.size.
    rewrite !length_app. simpl. lia.
  - unfold withinCapacity. rewrite Hpool, Hdel, Hm. unfold JsMap.size.
    rewrite !length_app. simpl. lia.
Qed.

(** Ten workers; port 9001 holds the (shared) least [lastUsed] and is the
    one killed; the new worker goes on port 9010. *)
Lemma getOrCreate_evicts_oldest_witness :
  Inv fullPool /\ cached fullPool = None /\
  (MAX_INSTANCES <= JsMap.size (instances fullPool))%nat /\
  outcome (getOrCreateInstance (calmWorld 100) fullPool) = Ret (9010, 29010) /\
  exists vp vi,
    JsMap.get vp (instances fullPool) = Some vi /\
    kills (events (getOrCreateInstance (calmWorld 100) fullPool)) = [process vi] /\
    (JsMap.size (instances (final (getOrCreateInstance (calmWorld 100) fullPool)))
     <= MAX_INSTANCES)%nat.
Proof.
  split; [reflexivity|]. split; [reflexivity|].
  split; [vm_compute; repeat constructor|]. split; [reflexivity|].
  set (r := getOrCreateInstance (calmWorld 100) fullPool).
  assert (Hfull : (MAX_INSTANCES <= JsMap.size (instances fullPool))%nat)
    by (vm_compute; repeat constructor).
  destruct (getOrCreate_evicts_oldest (calmWorld 100) fullPool
              9010 29010 (final r) (events r) eq_refl eq_refl Hfull eq_refl)
    as (vp & vi & Hg & _ & _ & Hk & _ & _ & Hsz).
  exists vp, vi. split; [exact Hg|]. split; [exact Hk|].
  apply Hsz. vm_compute. repeat constructor.
Defined.

(** C9. When several Workers share the minimal [lastUsed] at eviction
    time, the Worker evicted is the earliest of them in the Pool's insertion
    order: every entry before the evicted one has a strictly larger
    [lastUsed], every entry after it one at least as large. *)
Theorem eviction_takes_first_of_ties (w : World) (s : State) :
  Inv s -> cached s = None ->
  (MAX_INSTANCES <= JsMap.size (instances s))%nat ->
  exists pre vp vi post,
    instances s = pre ++ (vp, vi) :: post /\
    (forall e, In e pre -> lastUsed vi < lastUsed (snd e)) /\
    (forall e, In e post -> lastUsed vi <= lastUsed (snd e)) /\
    evictIfFull w s = (Ret tt, withInstances (pre ++ post) s, killEvents (vp, vi)) /\
    getOrCreateInstance w s =
      match spawnInstance w (withInstances (pre ++ post) s) with
      | (r, s2, ev2) => (r, s2, killEvents (vp, vi) ++ ev2)
      end.
Proof.
  intros HI Hc Hfull. destruct (Inv_parts s HI) as (Hnd & Hp & _).
  destruct (evictIfFull_full w s Hnd Hp Hfull) as
    (pre & vp & vi & post & Hm & H1 & H2 & Hrun).
  exists pre, vp, vi, post. repeat split; auto.
  rewrite (getOrCreate_fresh _ _ Hc). unfold bind. now rewrite Hrun.
Qed.

(** Ports 9001, 9003 and 9009 tie at [lastUsed] 20; 9001 was inserted
    first and is the one evicted. *)
Lemma eviction_takes_first_of_ties_witness :
  Inv fullPool /\ cached fullPool = None /\
  (MAX_INSTANCES <= JsMap.size (instances fullPool))%nat /\
  JsMap.keys (instances (final (evictIfFull (calmWorld 100) fullPool))) =
    [9000; 9002; 9003; 9004; 9005; 9006; 9007; 9008; 9009] /\
  exists pre vp vi post,
    instances fullPool = pre ++ (vp, vi) :: post /\
    (forall e, In e pre -> lastUsed vi < lastUsed (snd e)).
Proof.
  split; [reflexivity|]. split; [reflexivity|].
  split; [vm_compute; repeat constructor|]. split; [reflexivity|].
  assert (Hfull : (MAX_INSTANCES <= JsMap.size (instances fullPool))%nat)
    by (vm_compute; repeat constructor).
  destruct (eviction_takes_first_of_ties (calmWorld 100) fullPool
              eq_refl eq_refl Hfull)
    as (pre & vp & vi & post & Hm & H1 & _).
  exists pre, vp, vi, post. auto.
Defined.

(** ** Failure of a spawn attempt *)

(** C4. In a call that attempts a spawn, a failure of the port allocation,
    of the readiness wait or of the connection of the call channel is thrown
    to the caller, and the Pool and the session's assignment are then what
    they were when the attempt began (that is, after the capacity check):
    nothing was added, and below capacity the Pool is exactly the Pool
    before the call. *)
Theorem getOrCreate_failure_leaves_pool (w : World) (s : State) :
  cached s = None ->
  (forall port a evp,
     scanPorts w (instances (final (evictIfFull w s))) 100
       (nextPort (final (evictIfFull w s))) 0 = (port, a, evp) ->
     (100 <= a ->
        outcome (getOrCreateInstance w s) = Threw NoAvailablePorts) /\
     (a < 100 -> forall e,
        outcome (waitForServer w port
                   (withNextPort (port + 1) (final (evictIfFull w s))))
          = Threw e ->
        outcome (getOrCreateInstance w s) = Threw e) /\
     (a < 100 -> forall e,
        outcome (waitForServer w port
                   (withNextPort (port + 1) (final (evictIfFull w s))))
          = Ret tt ->
        connectClient w port = inl e ->
        outcome (getOrCreateInstance w s) = Threw e)) /\
  (forall e s' ev,
     getOrCreateInstance w s = (Threw e, s', ev) ->
     instances s' = instances (final (evictIfFull w s)) /\
     assignedPort s' = assignedPort s /\
     assignedClient s' = assignedClient s /\
     (forall x, In x (instances s') -> In x (instances s)) /\
     ((JsMap.size (instances s) < MAX_INSTANCES)%nat ->
        instances s' = instances s)).
Proof.
  intros Hc.
  destruct (getOrCreate_fresh_run w s Hc) as (m & eve & He & Hsub & Hbelow & _ & Hg).
  rewrite He. cbn [final fst snd withInstances instances nextPort].
  rewrite Hg, spawnInstance_run. clear Hg.
  cbn [withInstances instances nextPort].
  destruct (scanPorts w m 100 (nextPort s) 0) as [[p a] evp] eqn:Hscan.
  split.
  - intros port a' evp' E. injection E as <- <- <-.
    destruct (Z.geb_spec a 100) as [Hge|Hlt].
    + split; [reflexivity|]. split; intros; lia.
    + cbv zeta.
      destruct (waitForServer w p (withNextPort (p + 1) (withInstances m s)))
        as [[[[]|e0|] sw] evw]; cbn [outcome fst snd].
      * split; [intros; lia|]. split; [discriminate|].
        intros _ e _ Hconn. now rewrite Hconn.
      * split; [intros; lia|]. split; [|discriminate].
        intros _ e E. now injection E as <-.
      * split; [intros; lia|]. split; discriminate.
  - intros e s' ev Hrun.
    assert (Hs' : s' = withInstances m s \/
                  s' = withNextPort (p + 1) (withInstances m s)).
    { destruct (a >=? 100); [injection Hrun as _ <- _; now left|].
      cbv zeta in Hrun.
      destruct (waitForServer w p (withNextPort (p + 1) (withInstances m s)))
        as [[[[]|e0|] sw] evw]; try discriminate.
      - destruct (connectClient w p); [|discriminate].
        injection Hrun as _ <- _. now right.
      - injection Hrun as _ <- _. now right. }
    destruct Hs' as [-> | ->];
      cbn [withNextPort withInstances instances assignedPort assignedClient];
      repeat split; auto.
Qed.

(** From the empty pool, with a health probe that is never answered: the
    call throws the timeout error and the pool stays empty, the session
    unassigned. *)
Lemma getOrCreate_failure_leaves_pool_witness :
  cached (initial "session-1") = None /\
  getOrCreateInstance deafWorld (initial "session-1") =
    (Threw (WaitTimeout 9000), withNextPort 9001 (initial "session-1"),
     [EvBindProbe 9000; EvSpawn 9000 19000; EvSleep 3000;
      EvHealthProbe 9000; EvSleep 1000; EvHealthProbe 9000; EvSleep 1000;
      EvHealthProbe 9000]) /\
  instances (withNextPort 9001 (initial "session-1")) =
    instances (initial "session-1").
Proof.
  split; [reflexivity|]. split; [reflexivity|].
  exact (proj2 (proj2 (proj2 (proj2
    (proj2 (getOrCreate_failure_leaves_pool deafWorld (initial "session-1") eq_refl)
       (WaitTimeout 9000) (withNextPort 9001 (initial "session-1")) _ eq_refl))))
    ltac:(vm_compute; repeat constructor)).
Defined.

(** ** The allocated port *)

(** What holds of every allocated port: it is not a key of the Pool, it
    could be bound, the cursor moves past it, and it is in
    [[BASE_PORT, BASE_PORT + 100]] when the cursor [nextPort] was. *)
Lemma allocatePort_fresh w s port s' ev :
  allocatePort w s = (Ret port, s', ev) ->
  JsMap.has port (instances s) = false /\
  isPortInUse w port = false /\
  s' = withNextPort (port + 1) s /\
  (BASE_PORT <= nextPort s -> BASE_PORT <= port) /\
  (BASE_PORT <= nextPort s <= BASE_PORT + 100 ->
     BASE_PORT <= port <= BASE_PORT + 100).
Proof.
  rewrite allocatePort_run.
  destruct (scanPorts w (instances s) 100 (nextPort s) 0)
    as [[p a] evp] eqn:Hscan.
  destruct (Z.geb_spec a 100) as [Hge|Hlt]; [discriminate|].
  intros H. injection H as <- <- <-.
  destruct (scanPorts_exit _ _ _ _ _ _ _ _ Hscan) as [(_ & _ & H1 & H2)|H];
    [lia | simpl; lia | | lia].
  repeat split; auto.
  - eapply scanPorts_lower; eauto.
  - eapply scanPorts_range; eauto.
  - eapply scanPorts_range; eauto.
Qed.

(** C3, at the failing input. A worker is spawned and its process exits,
    101 times over, every port being free: the ports 9000 to 9100 are handed
    out in turn and the cursor [nextPort] is left at 9101, which line 147
    ([nextPort = port + 1]) does not wrap.  The next call allocates port
    9101, outside [[BASE_PORT, BASE_PORT + 100]]. *)
Theorem allocation_leaves_range :
  let w := calmWorld 0 in
  let s := Nat.iter 101 (spawnThenExit w) (initial "session-1") in
  instances s = [] /\
  nextPort s = BASE_PORT + 101 /\
  outcome (getOrCreateInstance w s) = Ret (9101, 29101) /\
  JsMap.keys (instances (final (getOrCreateInstance w s))) = [9101] /\
  BASE_PORT + 100 < 9101.
Proof.
  vm_compute. repeat split; reflexivity.
Qed.

(** ** proxyToolCall *)

Lemma touchAssigned_pool w s :
  JsMap.keys (instances (touchAssigned w s)) = JsMap.keys (instances s) /\
  (forall q, JsMap.has q (instances (touchAssigned w s)) =
             JsMap.has q (instances s)) /\
  assignedPort (touchAssigned w s) = assignedPort s /\
  assignedClient (touchAssigned w s) = assignedClient s /\
  nextPort (touchAssigned w s) = nextPort s.
Proof.
  unfold touchAssigned.
  destruct (assignedPort s) as [p|] eqn:Hp; [|now rewrite Hp].
  destruct (truthy (Some p) && JsMap.has p (instances s)); [|now rewrite Hp].
  unfold touch. cbn [withInstances instances assignedPort assignedClient nextPort].
  repeat split; auto.
  - apply keys_update.
  - intros q. apply has_update.
Qed.

(** The dispatcher on a failing forward: the result is returned, not
    thrown, and the state is that left by lines 210-216. *)
Lemma proxyToolCall_failure_run w s name args port c s1 ev1 res :
  getOrCreateInstance w s = (Ret (port, c), s1, ev1) ->
  forwardFails (callTool w c name (argsOrEmpty args)) res ->
  proxyToolCall w name args s =
    (Ret res, touchAssigned w s1,
     ev1 ++ [EvCallTool c name (argsOrEmpty args)]).
Proof.
  intros Hrun Hfail.
  unfold proxyToolCall, bind at 1. rewrite Hrun.
  unfold bind at 1, getState. cbn [snd app].
  unfold bind at 1.
  assert (Htouch :
    (match assignedPort s1 with
     | Some p =>
         if truthy (Some p) && JsMap.has p (instances s1)
         then modify (touch p (touchNow w)) else ret tt
     | None => ret tt
     end) s1 = (Ret tt, touchAssigned w s1, [])).
  { unfold touchAssigned. destruct (assignedPort s1) as [p|]; [|reflexivity].
    now destruct (truthy (Some p) && JsMap.has p (instances s1)). }
  rewrite Htouch. clear Htouch.
  unfold tryCatch, callToolM, bind at 1, emit at 1.
  remember (callTool w c name (argsOrEmpty args)) as o eqn:Ho. clear Ho.
  destruct Hfail as [e| |items];
    unfold bind, throw, ret, logResult; cbn [content app];
    rewrite ?app_nil_r; reflexivity.
Qed.

Lemma getOrCreate_result_in_pool w s port c s' ev :
  getOrCreateInstance w s = (Ret (port, c), s', ev) ->
  JsMap.has port (instances s') = true.
Proof.
  intros Hrun. destruct (cached s) as [[p c0]|] eqn:Hc.
  - rewrite (getOrCreate_cached _ _ _ _ Hc) in Hrun.
    injection Hrun as <- <- <- <-.
    apply cached_Some in Hc as (_ & _ & _ & Hhas).
    unfold touch. cbn [withInstances instances]. now rewrite has_update.
  - destruct (getOrCreate_fresh_success _ _ _ _ _ _ Hc Hrun) as
      (m & eve & a & evp & evw & _ & _ & _ & _ & _ & -> & _).
    unfold register. cbn [withAssigned withInstances withNextPort instances].
    apply has_true_iff. eexists. apply get_set_same.
Qed.

(** C5. When forwarding the operation to the assigned Worker fails
    ([callTool] rejects with a channel error or any other exception, or the
    remote worker reports an error), [proxyToolCall] does not throw: it
    returns a result with a [content] list and [isError: true].  For a
    rejection the content is exactly one item of type ["text"] whose text is
    ["Error: "] followed by the error's message (so it is never empty); for
    a result that resolved to [undefined] it is that item with the message
    of the runtime's error; for an error reported by the remote worker it is
    the remote result itself, content and flag as sent.  The Pool keeps the
    same ports, the Worker still registered, no process killed by the
    failure. *)
Theorem proxyToolCall_contains_failure (w : World) (s : State)
  (name : string) (args : option string)
  (port : Port) (c : Client) (s1 : State) (ev1 : list Event)
  (res : ToolResult) :
  getOrCreateInstance w s = (Ret (port, c), s1, ev1) ->
  forwardFails (callTool w c name (argsOrEmpty args)) res ->
  proxyToolCall w name args s =
    (Ret res, touchAssigned w s1,
     ev1 ++ [EvCallTool c name (argsOrEmpty args)]) /\
  isError res = Some true /\
  (exists items, content res = Some items) /\
  (forall e, callTool w c name (argsOrEmpty args) = inl e ->
     res = textResult ("Error: " ++ message e) (Some true)) /\
  (forall e, callTool w c name (argsOrEmpty args) = inl e ->
     outcome (proxyToolCall w name args s) =
       Ret (mkToolResult
              (Some [mkContent "text" ("Error: " ++ message e)])
              (Some true)) /\
     content res = Some [mkContent "text" ("Error: " ++ message e)] /\
     ("Error: " ++ message e)%string <> EmptyString) /\
  (callTool w c name (argsOrEmpty args) = inr RUndefined ->
   outcome (proxyToolCall w name args s) =
     Ret (mkToolResult
            (Some [mkContent "text"
                     "Error: Cannot read properties of undefined (reading 'slice')"])
            (Some true))) /\
  (forall r, callTool w c name (argsOrEmpty args) = inr (RObject r) ->
     outcome (proxyToolCall w name args s) = Ret r /\
     isError r = Some true /\ content r <> None) /\
  JsMap.keys (instances (final (proxyToolCall w name args s))) =
    JsMap.keys (instances s1) /\
  JsMap.has port (instances (final (proxyToolCall w name args s))) = true /\
  assignedPort (final (proxyToolCall w name args s)) = assignedPort s1 /\
  kills (events (proxyToolCall w name args s)) = kills ev1.
Proof.
  intros Hrun Hfail.
  rewrite (proxyToolCall_failure_run _ _ _ _ _ _ _ _ _ Hrun Hfail).
  cbn [final events outcome fst snd].
  destruct (touchAssigned_pool w s1) as (Hk & Hh & Hap & _).
  split; [reflexivity|].
  split; [now destruct Hfail|].
  split; [destruct Hfail; simpl; eauto|].
  split.
  { intros e He. rewrite He in Hfail. now inversion Hfail. }
  split.
  { intros e He. rewrite He in Hfail. inversion Hfail; subst.
    split; [reflexivity|]. split; [reflexivity|]. discriminate. }
  split.
  { intros He. rewrite He in Hfail. now inversion Hfail. }
  split.
  { intros r He. rewrite He in Hfail. inversion Hfail; subst.
    split; [reflexivity|]. split; [reflexivity | discriminate]. }
  split; [exact Hk|].
  split; [rewrite Hh; eapply getOrCreate_result_in_pool; eauto|].
  split; [exact Hap|].
  rewrite kills_app. simpl. apply app_nil_r.
Qed.

(** The first tool call of a session on a channel that rejects: the
    worker is spawned on port 9000, the call fails, the dispatcher returns
    the error result and port 9000 stays in the Pool. *)
Lemma proxyToolCall_contains_failure_witness :
  let w := brokenChannelWorld in
  let s := initial "session-1" in
  outcome (getOrCreateInstance w s) = Ret (9000, 29000) /\
  forwardFails (callTool w 29000 "browser_click" (argsOrEmpty None))
    (textResult "Error: Connection closed" (Some true)) /\
  outcome (proxyToolCall w "browser_click" None s) =
    Ret (textResult "Error: Connection closed" (Some true)) /\
  JsMap.keys (instances (final (proxyToolCall w "browser_click" None s))) = [9000] /\
  outcome (proxyToolCall w "browser_click" None s) =
    Ret (mkToolResult (Some [mkContent "text" "Error: Connection closed"])
           (Some true)).
Proof.
  intros w s.
  assert (Hf : forwardFails (callTool w 29000 "browser_click" (argsOrEmpty None))
                 (textResult "Error: Connection closed" (Some true)))
    by exact (CallRejected (CallFailed "Connection closed")).
  split; [reflexivity|]. split; [exact Hf|].
  set (r := getOrCreateInstance w s).
  destruct (proxyToolCall_contains_failure w s "browser_click" None
              9000 29000 (final r) (events r) _ eq_refl Hf)
    as (Hrun & _ & _ & _ & Hground & _ & _ & Hkeys & _).
  split; [now rewrite Hrun|]. split; [now rewrite Hkeys|].
  exact (proj1 (Hground (CallFailed "Connection closed") eq_refl)).
Defined.

(** ** Every state the program goes through satisfies the invariants *)

Lemma proxyToolCall_state w name args s :
  final (proxyToolCall w name args s) =
  match outcome (getOrCreateInstance w s) with
  | Ret _ => touchAssigned w (final (getOrCreateInstance w s))
  | _ => final (getOrCreateInstance w s)
  end.
Proof.
  unfold proxyToolCall, bind at 1.
  destruct (getOrCreateInstance w s) as [[[pc|e|] s1] ev1];
    cbn [outcome final fst snd]; try reflexivity.
  unfold bind at 1, getState. cbn [app]. unfold bind at 1.
  assert (Htouch :
    (match assignedPort s1 with
     | Some p =>
         if truthy (Some p) && JsMap.has p (instances s1)
         then modify (touch p (touchNow w)) else ret tt
     | None => ret tt
     end) s1 = (Ret tt, touchAssigned w s1, [])).
  { unfold touchAssigned. destruct (assignedPort s1) as [p|]; [|reflexivity].
    now destruct (truthy (Some p) && JsMap.has p (instances s1)). }
  rewrite Htouch.
  unfold tryCatch, callToolM, bind at 1, emit at 1.
  destruct (callTool w (snd pc) name (argsOrEmpty args)) as [e|[| |r]];
    unfold bind, throw, ret, logResult; cbn [fst snd]; try reflexivity.
  now destruct (content r).
Qed.

Lemma Inv_touchAssigned w s : Inv s -> Inv (touchAssigned w s).
Proof.
  intros HI. unfold touchAssigned.
  destruct (assignedPort s) as [p|]; [|exact HI].
  destruct (truthy (Some p) && JsMap.has p (instances s)); [|exact HI].
  now apply Inv_touch.
Qed.

Lemma withinCapacity_touchAssigned w s :
  withinCapacity s -> withinCapacity (touchAssigned w s).
Proof.
  unfold withinCapacity, touchAssigned.
  destruct (assignedPort s) as [p|]; [|auto].
  destruct (truthy (Some p) && JsMap.has p (instances s)); [|auto].
  unfold touch. cbn [withInstances instances]. now rewrite size_update.
Qed.

Lemma step_invariant s s' :
  step s s' -> Inv s /\ withinCapacity s -> Inv s' /\ withinCapacity s'.
Proof.
  intros Hstep [HI Hsz]. destruct Hstep as [w s|w name args s|w port s|port s|w s].
  - split; [now apply Inv_getOrCreateInstance
           | now apply withinCapacity_getOrCreateInstance].
  - rewrite proxyToolCall_state.
    pose proof (Inv_getOrCreateInstance w s HI) as HI1.
    pose proof (withinCapacity_getOrCreateInstance w s HI Hsz) as Hsz1.
    destruct (outcome (getOrCreateInstance w s)); auto.
    split; [now apply Inv_touchAssigned | now apply withinCapacity_touchAssigned].
  - split; [now apply Inv_killInstance|].
    unfold withinCapacity in *.
    destruct (JsMap.get port (instances s)) as [i|] eqn:Hg.
    + rewrite (killInstance_present _ _ _ _ Hg).
      cbn [final fst snd withInstances instances].
      pose proof (size_delete_le port (instances s)). lia.
    + now rewrite (killInstance_absent _ _ _ Hg).
  - split; [now apply Inv_onExit|].
    unfold withinCapacity, onExit in *.
    pose proof (size_delete_le port (instances s)) as Hle.
    cbn [withInstances assignedPort].
    destruct (assignedPort s) as [a|]; [destruct (a =? port)|];
      cbn [withAssigned withInstances instances]; lia.
  - split; [now apply Inv_cleanupTick|].
    unfold withinCapacity in *.
    destruct (Inv_parts s HI) as (Hnd & _).
    rewrite (cleanupTick_run w s Hnd).
    cbn [final fst snd withInstances instances]. unfold JsMap.size in *.
    pose proof (filter_length_le (fun e => negb (timedOut w e)) (instances s)).
    lia.
Qed.

(** Started from the empty pool and run step by step, the program only
    goes through states in which the ports of the Pool are pairwise
    distinct and at least [BASE_PORT], and the Pool holds no more than
    [MAX_INSTANCES] workers. *)
Theorem reachable_invariant sid s :
  reachable sid s -> Inv s /\ withinCapacity s.
Proof.
  induction 1 as [|s s' _ IH Hstep].
  - split; [reflexivity|]. unfold withinCapacity, MAX_INSTANCES. simpl. lia.
  - eapply step_invariant; eauto.
Qed.

(** * Further properties of the code *)

(** ** The order of the port scan *)

Lemma candidate_succ start k :
  candidate (advance start) k = advance (candidate start k).
Proof.
  unfold candidate. rewrite <- Nat.iter_succ_r. reflexivity.
Qed.

Lemma portFree_busy w m port :
  fst (portFree w m port) = negb (busy w m port).
Proof.
  unfold portFree, busy. destruct (JsMap.has port m); reflexivity.
Qed.

(** The loop looks at [candidate start 0], [candidate start 1], ... and
    stops at the first one that is not busy, or after 100 of them. *)
Lemma scanPorts_candidates w m : forall fuel c a p a' ev,
  scanPorts w m fuel c a = (p, a', ev) ->
  0 <= a <= 100 -> 100 <= a + Z.of_nat fuel ->
  exists k : nat,
    a' = a + Z.of_nat k /\ a' <= 100 /\
    p = candidate c k /\
    (forall j, (j < k)%nat -> busy w m (candidate c j) = true) /\
    (a' < 100 -> busy w m p = false).
Proof.
  induction fuel as [|fuel IH]; intros c a p a' ev H Ha Hfuel.
  - simpl in H. injection H as <- <- <-. exists 0%nat.
    split; [lia|]. split; [lia|]. split; [reflexivity|].
    split; intros; lia.
  - cbn [scanPorts] in H.
    destruct (Z.ltb_spec a 100) as [Hlt|Hge].
    + pose proof (portFree_busy w m c) as Hb.
      destruct (portFree w m c) as [[|] evp]; cbn [fst] in Hb.
      * injection H as <- <- <-. exists 0%nat.
        split; [lia|]. split; [lia|]. split; [reflexivity|].
        split; [intros; lia|].
        intros _. symmetry in Hb. now apply negb_true_iff in Hb.
      * destruct (scanPorts w m fuel (advance c) (a + 1))
          as [[p' a''] ev'] eqn:E.
        injection H as <- <- <-.
        assert (Ha1 : 0 <= a + 1 <= 100) by lia.
        assert (Hf1 : 100 <= a + 1 + Z.of_nat fuel) by lia.
        destruct (IH _ _ _ _ _ E Ha1 Hf1) as (k & Hk & Hle & Hp & Hbusy & Hfree).
        exists (S k).
        split; [lia|]. split; [lia|].
        split; [rewrite Hp; unfold candidate; now rewrite Nat.iter_succ_r|].
        split; [|exact Hfree].
        intros [|j] Hj.
        -- simpl. symmetry in Hb. now apply negb_false_iff in Hb.
        -- unfold candidate. rewrite Nat.iter_succ_r. apply Hbusy. lia.
    + injection H as <- <- <-. exists 0%nat.
      split; [lia|]. split; [lia|]. split; [reflexivity|].
      split; intros; lia.
Qed.

(** X1. [allocatePort] tries the ports in a fixed order: the cursor
    [nextPort], then each time the next port, wrapping from
    [BASE_PORT + 100] to [BASE_PORT].  It returns the first of the first
    100 ports of that order that is neither a key of the Pool nor bound by
    some process, and moves the cursor just past it; when all 100 are busy
    it throws and leaves the state as it was. *)
Theorem allocatePort_first_free (w : World) (s : State) :
  (forall p s' ev,
     allocatePort w s = (Ret p, s', ev) ->
     exists k : nat,
       (k < 100)%nat /\ p = candidate (nextPort s) k /\
       busy w (instances s) p = false /\
       (forall j, (j < k)%nat ->
          busy w (instances s) (candidate (nextPort s) j) = true) /\
       s' = withNextPort (p + 1) s) /\
  ((forall j, (j < 100)%nat ->
      busy w (instances s) (candidate (nextPort s) j) = true) ->
   exists ev, allocatePort w s = (Threw NoAvailablePorts, s, ev)) /\
  (forall e s' ev,
     allocatePort w s = (Threw e, s', ev) ->
     e = NoAvailablePorts /\ s' = s /\
     forall j, (j < 100)%nat ->
       busy w (instances s) (candidate (nextPort s) j) = true).
Proof.
  rewrite allocatePort_run.
  destruct (scanPorts w (instances s) 100 (nextPort s) 0)
    as [[p a] evp] eqn:Hscan.
  assert (H0 : 0 <= 0 <= 100) by lia.
  assert (Hf : 100 <= 0 + Z.of_nat 100) by (simpl; lia).
  destruct (scanPorts_candidates _ _ _ _ _ _ _ _ Hscan H0 Hf)
    as (k & Hk & Hle & Hp & Hbusy & Hfree).
  destruct (Z.geb_spec a 100) as [Hge|Hlt].
  - assert (k = 100%nat) by lia. subst k.
    split; [intros ? ? ? E; discriminate|].
    split; [intros _; eauto|].
    intros e s' ev E. injection E as <- <- _. auto.
  - split; [|split].
    + intros p' s' ev E. injection E as <- <- <-.
      exists k. repeat split; auto. lia.
    + intros Hall. specialize (Hfree Hlt).
      rewrite Hp, Hall in Hfree by lia. discriminate.
    + intros e s' ev E. discriminate.
Qed.

(** With the ports 9000 and 9001 bound by other processes, the empty pool
    is given port 9002. *)
Lemma allocatePort_first_free_witness :
  let w := mkWorld 0 (fun p => p <? 9002) (fun p => p + 10000) 0 []
             (fun p => inr (p + 20000)) (fun _ => None) 0
             (fun _ _ _ => inr RNull) (fun _ => "null"%string) in
  outcome (allocatePort w (initial "session-1")) = Ret 9002 /\
  exists k : nat,
    (k < 100)%nat /\
    9002 = candidate (nextPort (initial "session-1")) k /\
    busy w [] 9002 = false.
Proof.
  intros w. split; [reflexivity|].
  destruct (proj1 (allocatePort_first_free w (initial "session-1"))
              9002 _ _ eq_refl) as (k & Hk & Hp & Hfree & _).
  exists k. auto.
Defined.

(** ** Ports the scan cannot reach *)

Lemma gap_self q : gap q q = 0.
Proof. unfold gap. now rewrite Z.eqb_refl. Qed.

Lemma gap_pos q c : c <> q -> 0 < gap q c.
Proof.
  unfold gap, BASE_PORT. intros H.
  destruct (Z.eqb_spec c q); [contradiction|].
  destruct (Z.gtb_spec q (9000 + 100)); [lia|].
  destruct (Z.gtb_spec c (9000 + 100)).
  - destruct (Z.ltb_spec q 9000); lia.
  - destruct (Z.ltb_spec c q); [lia|].
    destruct (Z.ltb_spec q 9000); lia.
Qed.

Lemma gap_advance q c : c <> q -> gap q c - 1 <= gap q (advance c).
Proof.
  intros H. unfold gap, advance, BASE_PORT.
  destruct (Z.eqb_spec c q); [contradiction|].
  destruct (Z.gtb_spec (c + 1) (9000 + 100));
    destruct (Z.gtb_spec q (9000 + 100));
    destruct (Z.gtb_spec c (9000 + 100));
    destruct (Z.ltb_spec q 9000);
    destruct (Z.ltb_spec c q);
    repeat match goal with
           | |- context [?a =? ?b] => destruct (Z.eqb_spec a b)
           | |- context [?a >? ?b] => destruct (Z.gtb_spec a b)
           | |- context [?a <? ?b] => destruct (Z.ltb_spec a b)
           end; lia.
Qed.

(** A port further away than the attempts left is not returned. *)
Lemma scanPorts_gap w m q : forall fuel c a p a' ev,
  scanPorts w m fuel c a = (p, a', ev) ->
  100 - a <= gap q c -> a' < 100 -> p <> q.
Proof.
  induction fuel as [|fuel IH]; intros c a p a' ev H Hgap Hlt.
  - simpl in H. injection H as <- <- <-.
    intros ->. rewrite gap_self in Hgap. lia.
  - cbn [scanPorts] in H.
    destruct (Z.ltb_spec a 100) as [Ha|Ha].
    + assert (Hcq : c <> q) by (intros ->; rewrite gap_self in Hgap; lia).
      destruct (portFree w m c) as [[|] evp].
      * now injection H as <- <- <-.
      * destruct (scanPorts w m fuel (advance c) (a + 1))
          as [[p' a''] ev'] eqn:E.
        injection H as <- <- <-.
        eapply IH; eauto.
        pose proof (gap_advance q c Hcq). lia.
    + injection H as <- <- <-. lia.
Qed.

Lemma predecessor_gap p :
  BASE_PORT <= p <= BASE_PORT + 100 -> gap (predecessor p) p = 100.
Proof.
  unfold gap, predecessor, BASE_PORT. intros Hp.
  destruct (Z.eqb_spec p 9000) as [->|Hne]; [reflexivity|].
  repeat match goal with
         | |- context [?a =? ?b] => destruct (Z.eqb_spec a b)
         | |- context [?a >? ?b] => destruct (Z.gtb_spec a b)
         | |- context [?a <? ?b] => destruct (Z.ltb_spec a b)
         end; lia.
Qed.

Lemma successor_gap p : BASE_PORT <= p -> 100 <= gap p (p + 1).
Proof.
  unfold gap, BASE_PORT. intros Hp.
  repeat match goal with
         | |- context [?a =? ?b] => destruct (Z.eqb_spec a b)
         | |- context [?a >? ?b] => destruct (Z.gtb_spec a b)
         | |- context [?a <? ?b] => destruct (Z.ltb_spec a b)
         end; lia.
Qed.

(** X2. A port is never handed out twice in a row: once [allocatePort]
    has returned a port, the next allocation, whatever has become of the
    Pool and of the ports of the host meanwhile, returns another port or
    throws.  (The cursor stands just past the port, and the 100 attempts of
    a scan end one step before coming back to it.) *)
Theorem allocatePort_not_twice_in_a_row (w w2 : World) (s : State)
  (p : Port) (s1 : State) (ev : list Event) (m2 : JsMap.t) :
  BASE_PORT <= nextPort s ->
  allocatePort w s = (Ret p, s1, ev) ->
  outcome (allocatePort w2 (withInstances m2 s1)) <> Ret p.
Proof.
  intros Hlo Hrun.
  assert (Hp : BASE_PORT <= p /\ s1 = withNextPort (p + 1) s).
  { rewrite allocatePort_run in Hrun.
    destruct (scanPorts w (instances s) 100 (nextPort s) 0)
      as [[p0 a] evp] eqn:Hscan.
    destruct (a >=? 100); [discriminate|].
    injection Hrun as <- <- <-. split; [|reflexivity].
    eapply scanPorts_lower; eauto. }
  destruct Hp as [Hp ->].
  rewrite allocatePort_run.
  cbn [withInstances withNextPort instances nextPort].
  destruct (scanPorts w2 m2 100 (p + 1) 0) as [[p2 a2] ev2] eqn:Hscan2.
  destruct (Z.geb_spec a2 100) as [Hge|Hlt]; cbn [outcome fst];
    [discriminate|].
  intros E. injection E as ->.
  refine (scanPorts_gap w2 m2 p _ _ _ _ _ _ Hscan2 _ Hlt eq_refl).
  pose proof (successor_gap p Hp). lia.
Qed.

(** Port 9000 is handed out and its worker is gone again; with every other
    port of the range bound by other processes the next allocation does not
    fall back on 9000: it throws. *)
Lemma allocatePort_not_twice_in_a_row_witness :
  let w2 := mkWorld 0 (fun p => negb (p =? 9000)) (fun p => p + 10000) 0 []
              (fun p => inr (p + 20000)) (fun _ => None) 0
              (fun _ _ _ => inr RNull) (fun _ => "null"%string) in
  BASE_PORT <= nextPort (initial "session-1") /\
  allocatePort (calmWorld 0) (initial "session-1") =
    (Ret 9000, withNextPort 9001 (initial "session-1"), [EvBindProbe 9000]) /\
  outcome (allocatePort w2 (withInstances [] (withNextPort 9001 (initial "session-1"))))
    <> Ret 9000.
Proof.
  intros w2.
  assert (Hlo : BASE_PORT <= nextPort (initial "session-1"))
    by (vm_compute; discriminate).
  split; [exact Hlo|]. split; [reflexivity|].
  exact (allocatePort_not_twice_in_a_row (calmWorld 0) w2 (initial "session-1")
           9000 _ _ [] Hlo eq_refl).
Defined.

Lemma advance_in_range c :
  BASE_PORT <= c <= BASE_PORT + 100 ->
  BASE_PORT <= advance c <= BASE_PORT + 100.
Proof.
  intros H. pose proof (advance_range c). lia.
Qed.

Lemma scanPorts_exhausts w m q : forall fuel c a p a' ev,
  scanPorts w m fuel c a = (p, a', ev) ->
  a <= 100 -> 100 <= a + Z.of_nat fuel ->
  100 - a <= gap q c ->
  BASE_PORT <= c <= BASE_PORT + 100 ->
  (forall x, BASE_PORT <= x <= BASE_PORT + 100 -> x <> q ->
     busy w m x = true) ->
  a' = 100.
Proof.
  induction fuel as [|fuel IH]; intros c a p a' ev H Ha Hfuel Hgap Hc Hbusy.
  - simpl in H. injection H as <- <- <-. lia.
  - cbn [scanPorts] in H.
    destruct (Z.ltb_spec a 100) as [Hlt|Hge].
    + assert (Hcq : c <> q) by (intros ->; rewrite gap_self in Hgap; lia).
      pose proof (portFree_busy w m c) as Hb.
      rewrite (Hbusy c Hc Hcq) in Hb.
      destruct (portFree w m c) as [[|] evp]; cbn [fst negb] in Hb;
        [discriminate|].
      destruct (scanPorts w m fuel (advance c) (a + 1))
        as [[p' a''] ev'] eqn:E.
      injection H as <- <- <-.
      assert (Ha1 : a + 1 <= 100) by lia.
      assert (Hf1 : 100 <= a + 1 + Z.of_nat fuel) by lia.
      refine (IH _ _ _ _ _ E Ha1 Hf1 _ (advance_in_range c Hc) Hbusy).
      pose proof (gap_advance q c Hcq). lia.
    + injection H as <- <- <-. lia.
Qed.

(** X3. The range holds 101 ports and a scan makes 100 attempts: with the
    cursor inside the range, the port just before the cursor (9100 for the
    cursor 9000) is never looked at.  When every other port of the range is
    tracked or bound, [allocatePort] throws "No available ports" and leaves
    the state as it was, whether or not that one port is free. *)
Theorem allocatePort_misses_one_port (w : World) (s : State) :
  BASE_PORT <= nextPort s <= BASE_PORT + 100 ->
  (forall x, BASE_PORT <= x <= BASE_PORT + 100 ->
     x <> predecessor (nextPort s) ->
     busy w (instances s) x = true) ->
  exists ev, allocatePort w s = (Threw NoAvailablePorts, s, ev).
Proof.
  intros Hc Hbusy. rewrite allocatePort_run.
  destruct (scanPorts w (instances s) 100 (nextPort s) 0)
    as [[p a] evp] eqn:Hscan.
  assert (Ha : a = 100).
  { refine (scanPorts_exhausts w (instances s) (predecessor (nextPort s))
              _ _ _ _ _ _ Hscan _ _ _ Hc Hbusy); try (simpl; lia).
    rewrite (predecessor_gap _ Hc). lia. }
  subst a. eexists. reflexivity.
Qed.

(** The empty pool, the ports 9000 to 9099 bound by other processes and
    9100 free: no port is found. *)
Lemma allocatePort_misses_one_port_witness :
  let w := mkWorld 0 (fun p => p <? 9100) (fun p => p + 10000) 0 []
             (fun p => inr (p + 20000)) (fun _ => None) 0
             (fun _ _ _ => inr RNull) (fun _ => "null"%string) in
  busy w [] 9100 = false /\
  outcome (allocatePort w (initial "session-1")) = Threw NoAvailablePorts.
Proof.
  intros w. split; [reflexivity|].
  assert (Hc : BASE_PORT <= nextPort (initial "session-1") <= BASE_PORT + 100)
    by (vm_compute; split; discriminate).
  assert (Hbusy : forall x, BASE_PORT <= x <= BASE_PORT + 100 ->
            x <> predecessor (nextPort (initial "session-1")) ->
            busy w (instances (initial "session-1")) x = true).
  { intros x Hx Hne. unfold busy. cbn [instances initial JsMap.empty JsMap.has JsMap.get].
    cbn [orb isPortInUse w]. apply Z.ltb_lt.
    unfold predecessor, BASE_PORT in *. simpl in Hne. lia. }
  destruct (allocatePort_misses_one_port w (initial "session-1") Hc Hbusy)
    as [ev ->].
  reflexivity.
Defined.

Lemma scanPorts_probes w m : forall fuel c a p a' ev x,
  scanPorts w m fuel c a = (p, a', ev) ->
  In (EvBindProbe x) ev -> JsMap.has x m = false.
Proof.
  induction fuel as [|fuel IH]; intros c a p a' ev x H Hin.
  - simpl in H. injection H as <- <- <-. destruct Hin.
  - cbn [scanPorts] in H.
    destruct (a <? 100); [|injection H as <- <- <-; destruct Hin].
    unfold portFree in H.
    destruct (JsMap.has c m) eqn:Hhas.
    + destruct (scanPorts w m fuel (advance c) (a + 1))
        as [[p' a''] ev'] eqn:E.
      injection H as <- <- <-. simpl in Hin. eauto.
    + destruct (negb (isPortInUse w c)).
      * injection H as <- <- <-. destruct Hin as [Hin|[]].
        now injection Hin as <-.
      * destruct (scanPorts w m fuel (advance c) (a + 1))
          as [[p' a''] ev'] eqn:E.
        injection H as <- <- <-. destruct Hin as [Hin|Hin].
        -- now injection Hin as <-.
        -- eauto.
Qed.

Lemma scanPorts_probe_count w m : forall fuel c a p a' ev,
  scanPorts w m fuel c a = (p, a', ev) -> (List.length ev <= fuel)%nat.
Proof.
  induction fuel as [|fuel IH]; intros c a p a' ev H.
  - simpl in H. injection H as <- <- <-. simpl. lia.
  - cbn [scanPorts] in H.
    destruct (a <? 100); [|injection H as <- <- <-; simpl; lia].
    unfold portFree in H.
    destruct (JsMap.has c m).
    + destruct (scanPorts w m fuel (advance c) (a + 1))
        as [[p' a''] ev'] eqn:E.
      injection H as <- <- <-. simpl. apply IH in E. lia.
    + destruct (negb (isPortInUse w c)).
      * injection H as <- <- <-. simpl. lia.
      * destruct (scanPorts w m fuel (advance c) (a + 1))
          as [[p' a''] ev'] eqn:E.
        injection H as <- <- <-. simpl. apply IH in E. lia.
Qed.

(** X4. [allocatePort] never asks the operating system about a port that
    is a key of the Pool (the test of line 137 short-circuits), makes at
    most 100 bind probes, and does nothing else to the outside world: no
    spawn, no kill. *)
Theorem allocatePort_probes_untracked_only (w : World) (s : State) :
  (forall x, In (EvBindProbe x) (events (allocatePort w s)) ->
     JsMap.has x (instances s) = false) /\
  (List.length (events (allocatePort w s)) <= 100)%nat /\
  kills (events (allocatePort w s)) = [] /\
  spawns (events (allocatePort w s)) = [].
Proof.
  rewrite allocatePort_run.
  destruct (scanPorts w (instances s) 100 (nextPort s) 0)
    as [[p a] evp] eqn:Hscan.
  assert (Hev : events
            (if a >=? 100 then (@Threw Port NoAvailablePorts, s, evp)
             else (Ret p, withNextPort (p + 1) s, evp)) = evp)
    by (now destruct (a >=? 100)).
  rewrite Hev.
  split; [|split].
  - intros x Hin. eapply scanPorts_probes; eauto.
  - eapply scanPorts_probe_count; eauto.
  - eapply scanPorts_events; eauto.
Qed.

(** ** A spawn below capacity *)

(** X5. Below capacity and without a cached worker, a successful
    [getOrCreateInstance] kills nothing and spawns once; the Pool is the old
    Pool, every entry as it was, followed by the new entry, whose [lastUsed]
    is the current time and whose [sessionId] is the session's; the new
    Worker is the session's assignment and the cursor stands just past its
    port. *)
Theorem getOrCreate_appends_below_capacity (w : World) (s : State)
  (port : Port) (c : Client) (s' : State) (ev : list Event) :
  cached s = None ->
  (JsMap.size (instances s) < MAX_INSTANCES)%nat ->
  getOrCreateInstance w s = (Ret (port, c), s', ev) ->
  instances s' =
    instances s ++
    [(port, mkInstance (spawnHandle w port) c (now w) (session s))] /\
  JsMap.has port (instances s) = false /\
  isPortInUse w port = false /\
  assignedPort s' = Some port /\ assignedClient s' = Some c /\
  nextPort s' = port + 1 /\
  kills ev = [] /\ spawns ev = [port].
Proof.
  intros Hc Hroom Hrun.
  rewrite (getOrCreate_fresh _ _ Hc) in Hrun. unfold bind in Hrun.
  rewrite (evictIfFull_below w s Hroom) in Hrun. cbn [app] in Hrun.
  rewrite spawnInstance_run in Hrun.
  destruct (scanPorts w (instances s) 100 (nextPort s) 0)
    as [[p a] evp] eqn:Hscan.
  destruct (Z.geb_spec a 100) as [Hge|Hlt]; [discriminate|].
  cbv zeta in Hrun.
  pose proof (waitForServer_quiet w p (withNextPort (p + 1) s)) as [Hk3 Hs3].
  destruct (waitForServer w p (withNextPort (p + 1) s))
    as [[[[]|e|] sw] evw] eqn:Hw; try discriminate.
  destruct (connectClient w p) as [e|c'] eqn:Hconn; [discriminate|].
  injection Hrun as <- <- <- <-.
  cbn [events snd] in Hk3, Hs3.
  destruct (scanPorts_events _ _ _ _ _ _ _ _ Hscan) as [Hk2 Hs2].
  destruct (scanPorts_exit _ _ _ _ _ _ _ _ Hscan) as [(_ & _ & Hfree & Huse)|H];
    [lia | simpl; lia | | lia].
  unfold register.
  cbn [withAssigned withInstances withNextPort instances nextPort
       assignedPort assignedClient].
  rewrite set_absent by assumption.
  repeat split; auto.
  - unfold kills in *. rewrite flat_map_app, Hk2. cbn [flat_map app].
    rewrite flat_map_app, Hk3. reflexivity.
  - unfold spawns in *. rewrite flat_map_app, Hs2. cbn [flat_map app].
    rewrite flat_map_app, Hs3. reflexivity.
Qed.

(** The first call of a session: the empty pool gets its first entry. *)
Lemma getOrCreate_appends_below_capacity_witness :
  cached (initial "session-1") = None /\
  (JsMap.size (instances (initial "session-1")) < MAX_INSTANCES)%nat /\
  instances (final (getOrCreateInstance (calmWorld 7) (initial "session-1"))) =
    [(9000, mkInstance 19000 29000 7 "session-1")].
Proof.
  split; [reflexivity|].
  assert (Hroom : (JsMap.size (instances (initial "session-1")) < MAX_INSTANCES)%nat)
    by (vm_compute; repeat constructor).
  split; [exact Hroom|].
  set (r := getOrCreateInstance (calmWorld 7) (initial "session-1")).
  exact (proj1 (getOrCreate_appends_below_capacity (calmWorld 7)
                  (initial "session-1") 9000 29000 (final r) (events r)
                  eq_refl Hroom eq_refl)).
Defined.

(** ** What a failed spawn leaves behind *)

(** X6. When [getOrCreateInstance] throws after it has spawned a process
    (the readiness wait timed out or the call channel could not be
    connected), that process is not killed and not tracked: no kill follows
    the spawn in the events of the call, the Pool has no entry for its port,
    and the cursor has moved past the port. *)
Theorem getOrCreate_failure_orphans_process (w : World) (s : State)
  (e : Error) (s' : State) (ev : list Event) (port : Port) (pr : Process) :
  getOrCreateInstance w s = (Threw e, s', ev) ->
  In (EvSpawn port pr) ev ->
  JsMap.has port (instances s') = false /\
  nextPort s' = port + 1 /\
  exists ev1 ev2,
    ev = ev1 ++ EvSpawn port pr :: ev2 /\ spawns ev1 = [] /\ kills ev2 = [].
Proof.
  intros Hrun Hin.
  destruct (cached s) as [[p0 c0]|] eqn:Hc.
  { rewrite (getOrCreate_cached _ _ _ _ Hc) in Hrun. discriminate. }
  destruct (getOrCreate_fresh_run w s Hc) as (m & eve & He & _ & _ & Hse & Hg).
  rewrite Hg, spawnInstance_run in Hrun. clear Hg.
  cbn [withInstances instances nextPort] in Hrun.
  destruct (scanPorts w m 100 (nextPort s) 0) as [[p a] evp] eqn:Hscan.
  destruct (scanPorts_events _ _ _ _ _ _ _ _ Hscan) as [Hk2 Hs2].
  assert (Hno : forall l, spawns l = [] -> ~ In (EvSpawn port pr) l).
  { intros l Hl Hi. apply in_split in Hi as (l1 & l2 & ->).
    rewrite spawns_app in Hl. apply app_eq_nil in Hl as [_ Hl].
    discriminate. }
  destruct (Z.geb_spec a 100) as [Hge|Hlt].
  { injection Hrun as _ _ <-. exfalso.
    apply in_app_or in Hin as [Hin|Hin];
      [exact (Hno eve Hse Hin) | exact (Hno evp Hs2 Hin)]. }
  cbv zeta in Hrun.
  destruct (scanPorts_exit _ _ _ _ _ _ _ _ Hscan) as [(_ & _ & Hfree & _)|H];
    [lia | simpl; lia | | lia].
  pose proof (waitForServer_quiet w p (withNextPort (p + 1) (withInstances m s)))
    as [Hk3 Hs3].
  assert (Hshape : s' = withNextPort (p + 1) (withInstances m s) /\
            exists evw, ev = eve ++ evp ++ EvSpawn p (spawnHandle w p) :: evw /\
                        kills evw = [] /\ spawns evw = []).
  { destruct (waitForServer w p (withNextPort (p + 1) (withInstances m s)))
      as [[[[]|e0|] sw] evw]; cbn [events snd] in Hk3, Hs3; try discriminate.
    - destruct (connectClient w p); [|discriminate].
      injection Hrun as _ <- <-. split; [reflexivity|].
      exists (evw ++ [EvConnect p]). split; [reflexivity|].
      rewrite kills_app, spawns_app, Hk3, Hs3. auto.
    - injection Hrun as _ <- <-. split; [reflexivity|].
      exists evw. auto. }
  destruct Hshape as [-> (evw & -> & Hkw & Hsw)].
  assert (Hsame : port = p /\ pr = spawnHandle w p).
  { apply in_app_or in Hin as [Hin|Hin]; [destruct (Hno eve Hse Hin)|].
    apply in_app_or in Hin as [Hin|[Hin|Hin]];
      [destruct (Hno evp Hs2 Hin) | | destruct (Hno evw Hsw Hin)].
    injection Hin as <- <-. auto. }
  destruct Hsame as [-> ->].
  cbn [withNextPort withInstances instances nextPort].
  split; [exact Hfree|]. split; [reflexivity|].
  exists (eve ++ evp), evw. split; [now rewrite <- app_assoc|].
  split; [|exact Hkw].
  now rewrite spawns_app, Hse, Hs2.
Qed.

(** The health probe is never answered: the process spawned on port 9000
    is left running and untracked. *)
Lemma getOrCreate_failure_orphans_process_witness :
  outcome (getOrCreateInstance deafWorld (initial "session-1")) =
    Threw (WaitTimeout 9000) /\
  In (EvSpawn 9000 19000)
    (events (getOrCreateInstance deafWorld (initial "session-1"))) /\
  JsMap.has 9000
    (instances (final (getOrCreateInstance deafWorld (initial "session-1")))) = false /\
  kills (events (getOrCreateInstance deafWorld (initial "session-1"))) = [].
Proof.
  split; [reflexivity|].
  assert (Hin : In (EvSpawn 9000 19000)
            (events (getOrCreateInstance deafWorld (initial "session-1"))))
    by (vm_compute; auto).
  split; [exact Hin|].
  set (r := getOrCreateInstance deafWorld (initial "session-1")) in *.
  split; [|reflexivity].
  exact (proj1 (getOrCreate_failure_orphans_process deafWorld (initial "session-1")
                  (WaitTimeout 9000) (final r) (events r) 9000 19000
                  eq_refl Hin)).
Defined.

(** ** proxyToolCall, every case *)

Lemma proxyToolCall_run w s name args port c s1 ev1 :
  getOrCreateInstance w s = (Ret (port, c), s1, ev1) ->
  proxyToolCall w name args s =
    (Ret
       match callTool w c name (argsOrEmpty args) with
       | inl e => textResult ("Error: " ++ message e) (Some true)
       | inr RUndefined =>
           textResult
             ("Error: " ++
              "Cannot read properties of undefined (reading 'slice')")
             (Some true)
       | inr RNull => textResult (JSON_stringify w RNull) None
       | inr (RObject r) =>
           match content r with
           | Some _ => r
           | None => textResult (JSON_stringify w (RObject r)) None
           end
       end,
     touchAssigned w s1,
     ev1 ++ [EvCallTool c name (argsOrEmpty args)]).
Proof.
  intros Hrun.
  unfold proxyToolCall, bind at 1. rewrite Hrun.
  unfold bind at 1, getState. cbn [snd app].
  unfold bind at 1.
  assert (Htouch :
    (match assignedPort s1 with
     | Some p =>
         if truthy (Some p) && JsMap.has p (instances s1)
         then modify (touch p (touchNow w)) else ret tt
     | None => ret tt
     end) s1 = (Ret tt, touchAssigned w s1, [])).
  { unfold touchAssigned. destruct (assignedPort s1) as [p|]; [|reflexivity].
    now destruct (truthy (Some p) && JsMap.has p (instances s1)). }
  rewrite Htouch. clear Htouch.
  unfold tryCatch, callToolM, bind at 1, emit at 1.
  destruct (callTool w c name (argsOrEmpty args)) as [e|[| |r]];
    unfold bind, throw, ret, logResult; cbn [app];
    rewrite ?app_nil_r; try reflexivity.
  destruct (content r); cbn [app]; rewrite ?app_nil_r; reflexivity.
Qed.

(** X7. A failure to obtain the Worker is not turned into an error
    result: when [getOrCreateInstance] throws (no port, readiness timeout,
    connection failure), [proxyToolCall] throws the same error, in the same
    state and with the same events; [callTool] is never reached. *)
Theorem proxyToolCall_propagates_spawn_failure (w : World) (s : State)
  (name : string) (args : option string)
  (e : Error) (s1 : State) (ev1 : list Event) :
  getOrCreateInstance w s = (Threw e, s1, ev1) ->
  proxyToolCall w name args s = (Threw e, s1, ev1) /\
  (forall c n x, ~ In (EvCallTool c n x) ev1).
Proof.
  intros Hrun. split.
  - unfold proxyToolCall, bind at 1. now rewrite Hrun.
  - intros c n x Hin.
    destruct (cached s) as [[p0 c0]|] eqn:Hc.
    { rewrite (getOrCreate_cached _ _ _ _ Hc) in Hrun. discriminate. }
    destruct (getOrCreate_fresh_run w s Hc) as (m & eve & He & _ & _ & _ & Hg).
    assert (Heve : ~ In (EvCallTool c n x) eve).
    { clear -He. unfold evictIfFull, bind at 1, getState in He.
      destruct (MAX_INSTANCES <=? JsMap.size (instances s))%nat;
        [|injection He as _ <-; auto].
      destruct (fst (findOldest (instances s))) as [vp|];
        [|injection He as _ <-; auto].
      destruct (truthy (Some vp)); [|injection He as _ <-; auto].
      destruct (JsMap.get vp (instances s)) as [vi|] eqn:Hget.
      - rewrite (killInstance_present _ _ _ _ Hget) in He.
        injection He as _ <-. intros [H|[H|[]]]; discriminate.
      - rewrite (killInstance_absent _ _ _ Hget) in He.
        injection He as _ <-. auto. }
    rewrite Hg, spawnInstance_run in Hrun. clear Hg.
    cbn [withInstances instances nextPort] in Hrun.
    destruct (scanPorts w m 100 (nextPort s) 0) as [[p a] evp] eqn:Hscan.
    assert (Hevp : ~ In (EvCallTool c n x) evp).
    { clear -Hscan. revert Hscan. generalize 100%nat (nextPort s) 0.
      intros fuel. revert p a evp.
      induction fuel as [|fuel IH]; intros p a evp c0 a0 H.
      - simpl in H. injection H as <- <- <-. auto.
      - cbn [scanPorts] in H.
        destruct (a0 <? 100); [|injection H as <- <- <-; auto].
        unfold portFree in H. destruct (JsMap.has c0 m).
        + destruct (scanPorts w m fuel (advance c0) (a0 + 1))
            as [[p' a'] ev'] eqn:E.
          injection H as <- <- <-. simpl. eauto.
        + destruct (negb (isPortInUse w c0)).
          * injection H as <- <- <-. intros [H|[]]; discriminate.
          * destruct (scanPorts w m fuel (advance c0) (a0 + 1))
              as [[p' a'] ev'] eqn:E.
            injection H as <- <- <-. intros [H|H]; [discriminate|].
            eapply IH; eauto. }
    assert (Hevw : forall st,
      ~ In (EvCallTool c n x) (events (waitForServer w p st))).
    { intros st. unfold waitForServer, waitForServerWith, bind at 1, emit at 1.
      assert (Hck : forall ps,
        ~ In (EvCallTool c n x) (events (check p 45000 (waitStart w) ps st))).
      { induction ps as [|[t status|t] ps IH]; cbn [check];
          unfold bind, emit, never, ret; simpl;
          try (intros [H|[]]; discriminate).
        destruct (t - waitStart w >? 45000); simpl.
        - intros [H|[]]; discriminate.
        - unfold events in IH.
          destruct (check p 45000 (waitStart w) ps st) as [[[]] evc];
            simpl in *; intros [H|[H|H]]; try discriminate; auto. }
      specialize (Hck (probes w)). unfold events in *.
      destruct (check p 45000 (waitStart w) (probes w) st) as [[[]] evc];
        simpl in *; intros [H|H]; try discriminate; auto. }
    destruct (a >=? 100).
    { injection Hrun as _ _ <-. apply in_app_or in Hin as [H|H]; auto. }
    cbv zeta in Hrun.
    specialize (Hevw (withNextPort (p + 1) (withInstances m s))).
    destruct (waitForServer w p (withNextPort (p + 1) (withInstances m s)))
      as [[[[]|e0|] sw] evw]; cbn [events snd] in Hevw; try discriminate.
    + destruct (connectClient w p); [|discriminate].
      injection Hrun as _ _ <-.
      apply in_app_or in Hin as [H|H]; auto.
      apply in_app_or in H as [H|[H|H]]; auto; try discriminate.
      apply in_app_or in H as [H|[H|[]]]; auto; discriminate.
    + injection Hrun as _ _ <-.
      apply in_app_or in Hin as [H|H]; auto.
      apply in_app_or in H as [H|[H|H]]; auto; discriminate.
Qed.

(** With the health probe never answered, the tool call throws the
    timeout. *)
Lemma proxyToolCall_propagates_spawn_failure_witness :
  outcome (getOrCreateInstance deafWorld (initial "session-1")) =
    Threw (WaitTimeout 9000) /\
  outcome (proxyToolCall deafWorld "browser_click" None (initial "session-1")) =
    Threw (WaitTimeout 9000).
Proof.
  split; [reflexivity|].
  set (r := getOrCreateInstance deafWorld (initial "session-1")).
  destruct (proxyToolCall_propagates_spawn_failure deafWorld (initial "session-1")
              "browser_click" None (WaitTimeout 9000) (final r) (events r)
              eq_refl) as [-> _].
  reflexivity.
Defined.

(** X8. Once a Worker was obtained, [proxyToolCall] returns a result in
    every case, never throws, and the result always has a [content] list;
    it carries [isError: true] only when forwarding failed ([callTool]
    rejected, resolved to [undefined], or the remote result was itself
    flagged).  The call is forwarded exactly once, to the returned channel,
    under the given name. *)
Theorem proxyToolCall_result_shape (w : World) (s : State)
  (name : string) (args : option string)
  (port : Port) (c : Client) (s1 : State) (ev1 : list Event) :
  getOrCreateInstance w s = (Ret (port, c), s1, ev1) ->
  exists res,
    proxyToolCall w name args s =
      (Ret res, touchAssigned w s1,
       ev1 ++ [EvCallTool c name (argsOrEmpty args)]) /\
    (exists items, content res = Some items) /\
    (isError res = Some true ->
     forwardFails (callTool w c name (argsOrEmpty args)) res).
Proof.
  intros Hrun. rewrite (proxyToolCall_run _ _ name args _ _ _ _ Hrun).
  eexists. split; [reflexivity|].
  destruct (callTool w c name (argsOrEmpty args)) as [e|[| |[cont err]]];
    cbn [content isError textResult].
  - split; [eauto|]. intros _. constructor.
  - split; [eauto|]. intros _. constructor.
  - split; [eauto|]. discriminate.
  - destruct cont as [items|]; cbn [content isError textResult].
    + split; [eauto|]. intros ->. constructor.
    + split; [eauto|]. discriminate.
Qed.

Lemma proxyToolCall_result_shape_witness :
  outcome (getOrCreateInstance (calmWorld 0) (initial "session-1")) =
    Ret (9000, 29000) /\
  exists res,
    outcome (proxyToolCall (calmWorld 0) "browser_snapshot" (Some "{}"%string)
               (initial "session-1")) = Ret res /\
    exists items, content res = Some items.
Proof.
  split; [reflexivity|].
  set (r := getOrCreateInstance (calmWorld 0) (initial "session-1")).
  destruct (proxyToolCall_result_shape (calmWorld 0) (initial "session-1")
              "browser_snapshot" (Some "{}"%string) 9000 29000 (final r) (events r)
              eq_refl) as (res & Hrun & Hcontent & _).
  exists res. split; [now rewrite Hrun | exact Hcontent].
Defined.

(** X9. A response of the Worker that has a [content] is returned as it
    is, error flag included.  A response without one ([null], or an object
    with no [content]) is replaced by a single text item holding its JSON,
    with no error flag, also when the response itself said [isError: true]. *)
Theorem proxyToolCall_normalizes_response (w : World) (s : State)
  (name : string) (args : option string)
  (port : Port) (c : Client) (s1 : State) (ev1 : list Event) :
  getOrCreateInstance w s = (Ret (port, c), s1, ev1) ->
  (forall r items,
     callTool w c name (argsOrEmpty args) = inr (RObject r) ->
     content r = Some items ->
     outcome (proxyToolCall w name args s) = Ret r) /\
  (forall r,
     callTool w c name (argsOrEmpty args) = inr (RObject r) ->
     content r = None ->
     outcome (proxyToolCall w name args s) =
       Ret (mkToolResult
              (Some [mkContent "text" (JSON_stringify w (RObject r))]) None)) /\
  (callTool w c name (argsOrEmpty args) = inr RNull ->
   outcome (proxyToolCall w name args s) =
     Ret (mkToolResult (Some [mkContent "text" (JSON_stringify w RNull)]) None)).
Proof.
  intros Hrun. rewrite (proxyToolCall_run _ _ name args _ _ _ _ Hrun).
  cbn [outcome fst].
  split; [|split].
  - intros r items -> Hc. now rewrite Hc.
  - intros r -> Hc. now rewrite Hc.
  - intros ->. reflexivity.
Qed.

(** The remote answers [{ isError: true }] with no content: the flag is
    lost in the wrapping. *)
Lemma proxyToolCall_normalizes_response_witness :
  let w := mkWorld 0 (fun _ => false) (fun p => p + 10000) 0
             [Responded 3500 200]
             (fun p => inr (p + 20000)) (fun _ => None) 10
             (fun _ _ _ => inr (RObject (mkToolResult None (Some true))))
             (fun _ => "{isError:true}"%string) in
  outcome (getOrCreateInstance w (initial "session-1")) = Ret (9000, 29000) /\
  isError
    match outcome (proxyToolCall w "browser_click" None (initial "session-1")) with
    | Ret res => res
    | _ => mkToolResult None (Some true)
    end = None.
Proof.
  intros w. split; [reflexivity|].
  set (r := getOrCreateInstance w (initial "session-1")).
  rewrite (proj1 (proj2 (proxyToolCall_normalizes_response w (initial "session-1")
                    "browser_click" None 9000 29000 (final r) (events r) eq_refl))
             (mkToolResult None (Some true)) eq_refl eq_refl).
  reflexivity.
Defined.

(** ** From a served call to the reaper *)

(** X10. A proxied call that obtained its Worker leaves that Worker's
    [lastUsed] at the time of the call (line 215), whether the forwarded
    operation succeeded or failed.  A tick of the cleanup timer no more than
    30 minutes later keeps the Worker, still assigned to the session; a tick
    more than 30 minutes later removes it. *)
Theorem served_worker_idle_clock (w w2 : World) (s : State)
  (name : string) (args : option string)
  (port : Port) (c : Client) (s1 : State) (ev1 : list Event) :
  Inv s ->
  getOrCreateInstance w s = (Ret (port, c), s1, ev1) ->
  (exists inst,
     JsMap.get port (instances (final (proxyToolCall w name args s))) = Some inst /\
     lastUsed inst = touchNow w /\ client inst = c) /\
  (now w2 - touchNow w <= INSTANCE_TIMEOUT_MS ->
   cached (final (cleanupTick w2 (final (proxyToolCall w name args s)))) =
     Some (port, c)) /\
  (now w2 - touchNow w > INSTANCE_TIMEOUT_MS ->
   JsMap.has port
     (instances (final (cleanupTick w2 (final (proxyToolCall w name args s)))))
     = false).
Proof.
  intros HI Hrun.
  rewrite (proxyToolCall_run _ _ name args _ _ _ _ Hrun). cbn [final fst snd].
  pose proof (getOrCreate_result_cached _ _ _ _ _ HI Hrun) as Hc1.
  pose proof (Inv_getOrCreateInstance w s HI) as HI1.
  rewrite Hrun in HI1. cbn [final fst snd] in HI1.
  apply cached_Some in Hc1 as (Hap & Hac & Hp0 & Hhas).
  assert (Ht : touchAssigned w s1 = touch port (touchNow w) s1).
  { unfold touchAssigned. rewrite Hap. cbn [truthy].
    destruct (Z.eqb_spec port 0); [contradiction|]. now rewrite Hhas. }
  rewrite Ht. clear Ht.
  apply has_true_iff in Hhas as [inst0 Hg0].
  assert (Hcl : client inst0 = c).
  { destruct (Inv_parts _ HI1) as (_ & _ & _ & Hco).
    unfold coherent in Hco. rewrite Hap, Hac, Hg0 in Hco.
    now apply Z.eqb_eq. }
  assert (Hg : JsMap.get port (instances (touch port (touchNow w) s1)) =
               Some (setLastUsed (touchNow w) inst0)).
  { unfold touch. cbn [withInstances instances].
    now rewrite get_update_same, Hg0. }
  pose proof (Inv_touch port (touchNow w) s1 HI1) as HI2.
  destruct (Inv_parts _ HI2) as (Hnd2 & _).
  split; [|split].
  - exists (setLastUsed (touchNow w) inst0). auto.
  - intros Hle. rewrite (cleanupTick_run w2 _ Hnd2). cbn [final fst snd].
    apply cached_Some.
    cbn [withInstances assignedPort assignedClient instances touch].
    repeat split; auto.
    apply has_true_iff. exists (setLastUsed (touchNow w) inst0).
    apply get_filter_kept; [exact Hg|].
    unfold timedOut. cbn [snd setLastUsed lastUsed].
    apply negb_true_iff.
    destruct (Z.gtb_spec (now w2 - touchNow w) INSTANCE_TIMEOUT_MS);
      [lia | reflexivity].
  - intros Hgt. rewrite (cleanupTick_run w2 _ Hnd2). cbn [final fst snd].
    cbn [withInstances instances].
    eapply has_filter_dropped; [exact Hnd2 | exact Hg |].
    unfold timedOut. cbn [snd setLastUsed lastUsed].
    apply negb_false_iff. now apply Z.gtb_gt.
Qed.

(** A call served at time 0: the tick at minute 30 keeps the worker. *)
Lemma served_worker_idle_clock_witness :
  Inv (initial "session-1") /\
  outcome (getOrCreateInstance (calmWorld 0) (initial "session-1")) =
    Ret (9000, 29000) /\
  now (calmWorld (30 * minute)) - touchNow (calmWorld 0) <= INSTANCE_TIMEOUT_MS /\
  cached
    (final (cleanupTick (calmWorld (30 * minute))
              (final (proxyToolCall (calmWorld 0) "browser_click" None
                        (initial "session-1"))))) = Some (9000, 29000).
Proof.
  split; [reflexivity|]. split; [reflexivity|].
  assert (Hle : now (calmWorld (30 * minute)) - touchNow (calmWorld 0)
                <= INSTANCE_TIMEOUT_MS) by (vm_compute; discriminate).
  split; [exact Hle|].
  set (r := getOrCreateInstance (calmWorld 0) (initial "session-1")).
  exact (proj1 (proj2 (served_worker_idle_clock (calmWorld 0)
                         (calmWorld (30 * minute)) (initial "session-1")
                         "browser_click" None 9000 29000 (final r) (events r)
                         eq_refl eq_refl)) Hle).
Defined.

(** ** The exit of a worker process *)

Lemma getOrCreate_fresh_spawns w s port c s' ev :
  cached s = None ->
  getOrCreateInstance w s = (Ret (port, c), s', ev) ->
  spawns ev = [port].
Proof.
  intros Hc Hrun.
  destruct (getOrCreate_fresh_success _ _ _ _ _ _ Hc Hrun) as
    (m & eve & a & evp & evw & He & Hscan & _ & Hw & _ & _ & ->).
  destruct (evictIfFull_shape w s) as (m' & eve' & He' & _ & _ & Hsp).
  rewrite He in He'. injection He' as _ <-.
  destruct (scanPorts_events _ _ _ _ _ _ _ _ Hscan) as [_ Hsp2].
  pose proof (waitForServer_quiet w port
                (withNextPort (port + 1) (withInstances m s))) as [_ Hsp3].
  rewrite Hw in Hsp3.
  unfold spawns in *. rewrite !flat_map_app, Hsp, Hsp2. cbn [flat_map app].
  rewrite flat_map_app, Hsp3. reflexivity.
Qed.

(** X11. The ['exit'] handler of a worker process removes the entry of
    its port and nothing else from the Pool.  When the port is the session's
    assigned port it clears the assignment, so that the next successful
    [getOrCreateInstance] spawns a new Worker; when it is another port, the
    assignment stays and a cached Worker stays cached. *)
Theorem onExit_deregisters (w : World) (port : Port) (s : State) :
  JsMap.has port (instances (onExit port s)) = false /\
  (forall q, q <> port ->
     JsMap.get q (instances (onExit port s)) = JsMap.get q (instances s)) /\
  nextPort (onExit port s) = nextPort s /\
  (assignedPort s = Some port ->
   assignedPort (onExit port s) = None /\
   assignedClient (onExit port s) = None /\
   forall p c s' ev,
     getOrCreateInstance w (onExit port s) = (Ret (p, c), s', ev) ->
     spawns ev = [p]) /\
  (assignedPort s <> Some port ->
   assignedPort (onExit port s) = assignedPort s /\
   assignedClient (onExit port s) = assignedClient s /\
   cached (onExit port s) = cached s).
Proof.
  assert (Hgone : JsMap.has port (JsMap.delete port (instances s)) = false)
    by (apply has_false_iff, get_delete_same).
  assert (Hpool : instances (onExit port s) = JsMap.delete port (instances s)).
  { unfold onExit. cbn [withInstances assignedPort].
    destruct (assignedPort s) as [a|]; [destruct (a =? port)|]; reflexivity. }
  assert (Hnext : nextPort (onExit port s) = nextPort s).
  { unfold onExit. cbn [withInstances assignedPort].
    destruct (assignedPort s) as [a|]; [destruct (a =? port)|]; reflexivity. }
  split; [now rewrite Hpool|].
  split; [intros q Hq; rewrite Hpool; now apply get_delete_other|].
  split; [exact Hnext|].
  split.
  - intros Hap.
    assert (Hs : onExit port s =
                 withAssigned None None
                   (withInstances (JsMap.delete port (instances s)) s)).
    { unfold onExit. cbn [withInstances assignedPort].
      now rewrite Hap, Z.eqb_refl. }
    rewrite Hs. cbn [withAssigned assignedPort assignedClient].
    split; [reflexivity|]. split; [reflexivity|].
    intros p c s' ev Hrun.
    eapply getOrCreate_fresh_spawns; [|exact Hrun]. reflexivity.
  - intros Hap.
    assert (Hs : onExit port s =
                 withInstances (JsMap.delete port (instances s)) s).
    { unfold onExit. cbn [withInstances assignedPort].
      destruct (assignedPort s) as [a|]; [|reflexivity].
      destruct (Z.eqb_spec a port) as [->|_]; [congruence | reflexivity]. }
    rewrite Hs. cbn [withInstances assignedPort assignedClient].
    split; [reflexivity|]. split; [reflexivity|].
    unfold cached. cbn [withInstances instances assignedPort assignedClient].
    destruct (assignedClient s) as [c|]; [|reflexivity].
    destruct (assignedPort s) as [a|]; [|reflexivity].
    rewrite has_delete.
    destruct (Z.eqb_spec a port) as [->|_]; [congruence | reflexivity].
Qed.

(** The session's worker on port 9000 exits; the next call spawns on 9001. *)
Lemma onExit_deregisters_witness :
  assignedPort (oneWorker 0) = Some 9000 /\
  assignedPort (onExit 9000 (oneWorker 0)) = None /\
  spawns (events (getOrCreateInstance (calmWorld 5) (onExit 9000 (oneWorker 0))))
    = [9001] /\
  cached (onExit 9005 (oneWorker 0)) = cached (oneWorker 0).
Proof.
  split; [reflexivity|].
  pose proof (onExit_deregisters (calmWorld 5) 9000 (oneWorker 0))
    as (_ & _ & _ & Hassigned & _).
  destruct (Hassigned eq_refl) as (Hp & _ & Hspawn).
  split; [exact Hp|]. split.
  - set (r := getOrCreateInstance (calmWorld 5) (onExit 9000 (oneWorker 0))).
    exact (Hspawn 9001 29001 (final r) (events r) eq_refl).
  - apply (onExit_deregisters (calmWorld 5) 9005 (oneWorker 0)).
    discriminate.
Defined.

(** ** What a settled readiness wait tells *)

Lemma check_sound port timeout start s : forall ps,
  match outcome (check port timeout start ps s) with
  | Ret _ => exists t status, In (Responded t status) ps
  | Threw e =>
      e = WaitTimeout port /\
      exists t, In (Failed t) ps /\ t - start > timeout
  | Pending => forall t status, ~ In (Responded t status) ps
  end.
Proof.
  induction ps as [|[t status|t] ps IH]; cbn [check];
    unfold bind, emit, never, ret, throw; cbn [outcome fst].
  - intros t status [].
  - exists t, status. now left.
  - destruct (Z.gtb_spec (t - start) timeout) as [Hgt|Hle]; cbn [outcome fst].
    + split; [reflexivity|]. exists t. split; [now left | lia].
    + unfold outcome in IH.
      destruct (check port timeout start ps s) as [[[[]|e|] s'] ev];
        cbn [fst] in *.
      * destruct IH as (t' & st' & Hin). exists t', st'. now right.
      * destruct IH as (-> & t' & Hin & Hgt). split; [reflexivity|].
        exists t'. split; [now right | exact Hgt].
      * intros t' st' [H|H]; [discriminate | eapply IH; eauto].
Qed.

(** X12. [waitForServer] is ready only if a health probe was answered,
    and throws only the timeout error of its port and only after a probe
    failed more than 45 seconds after the start of the wait.  It always
    begins with the 3-second timer and then the first probe, and it changes
    nothing in the state. *)
Theorem waitForServer_sound (w : World) (port : Port) (s : State) :
  (outcome (waitForServer w port s) = Ret tt ->
   exists t status, In (Responded t status) (probes w)) /\
  (forall e, outcome (waitForServer w port s) = Threw e ->
     e = WaitTimeout port /\
     exists t, In (Failed t) (probes w) /\ t - waitStart w > 45000) /\
  (exists ev, events (waitForServer w port s) =
              EvSleep 3000 :: EvHealthProbe port :: ev) /\
  final (waitForServer w port s) = s.
Proof.
  pose proof (check_sound port 45000 (waitStart w) s (probes w)) as Hs.
  pose proof (waitForServer_state w port s) as Hst.
  assert (Hev : exists ev, events (check port 45000 (waitStart w) (probes w) s)
                           = EvHealthProbe port :: ev).
  { destruct (probes w) as [|[t status|t] ps]; cbn [check];
      unfold bind, emit, never, ret, throw; cbn [events snd app]; eauto.
    destruct (t - waitStart w >? 45000); cbn [events snd app]; eauto.
    destruct (check port 45000 (waitStart w) ps s) as [[[[]|e|] s'] ev];
      cbn [events snd app]; eauto. }
  assert (Hrun : waitForServer w port s =
            match check port 45000 (waitStart w) (probes w) s with
            | (r, s', ev) => (r, s', EvSleep 3000 :: ev)
            end).
  { unfold waitForServer, waitForServerWith, bind, emit.
    now destruct (check port 45000 (waitStart w) (probes w) s)
      as [[[[]|e|] s'] ev]. }
  rewrite Hrun in *. clear Hrun.
  unfold outcome, events, final in *.
  destruct (check port 45000 (waitStart w) (probes w) s) as [[[[]|e|] s'] ev];
    cbn [fst snd app] in *.
  - split; [intros _; exact Hs|]. split; [discriminate|].
    destruct Hev as [ev' ->]. split; [eauto | exact Hst].
  - split; [discriminate|]. split.
    + intros e0 E. injection E as <-. exact Hs.
    + destruct Hev as [ev' ->]. split; [eauto | exact Hst].
  - split; [discriminate|]. split; [discriminate|].
    destruct Hev as [ev' ->]. split; [eauto | exact Hst].
Qed.

(** The wait that timed out saw a probe fail at 46 s. *)
Lemma waitForServer_sound_witness :
  outcome (waitForServer deafWorld 9000 (initial "session-1")) =
    Threw (WaitTimeout 9000) /\
  exists t, In (Failed t) (probes deafWorld) /\ t - waitStart deafWorld > 45000.
Proof.
  split; [reflexivity|].
  exact (proj2 (proj1 (proj2 (waitForServer_sound deafWorld 9000
                               (initial "session-1")))
                  (WaitTimeout 9000) eq_refl)).
Defined.

(** ** The status query *)

Lemma roundMinutes_bounds d :
  60000 * roundMinutes d - 30000 <= d < 60000 * roundMinutes d + 30000.
Proof.
  unfold roundMinutes.
  pose proof (Z.div_mod (d + 30000) 60000 ltac:(lia)) as Hdm.
  pose proof (Z.mod_pos_bound (d + 30000) 60000 ltac:(lia)) as Hb.
  lia.
Qed.

(** X13. The status query lists exactly the entries of the Pool, one line
    per entry in insertion order, each with its port and session id, and
    changes nothing.  The idle time of a line is the entry's idle time
    rounded to the nearest minute: it is off by at most 30 seconds (30
    seconds exactly are rounded up). *)
Theorem poolStatus_lists_pool (nowAt : Port -> Z) (s : State) :
  map st_port (ps_instances (poolStatus nowAt s)) = JsMap.keys (instances s) /\
  List.length (ps_instances (poolStatus nowAt s)) = JsMap.size (instances s) /\
  ps_assignedPort (poolStatus nowAt s) = assignedPort s /\
  ps_maxInstances (poolStatus nowAt s) = MAX_INSTANCES /\
  (forall st, In st (ps_instances (poolStatus nowAt s)) ->
     exists i,
       In (st_port st, i) (instances s) /\
       st_sessionId st = sessionId i /\
       60000 * st_idleMinutes st - 30000
         <= nowAt (st_port st) - lastUsed i
         < 60000 * st_idleMinutes st + 30000).
Proof.
  unfold poolStatus, statusEntries.
  cbn [ps_instances ps_assignedPort ps_maxInstances].
  split; [|split; [|split; [|split]]].
  - rewrite map_map. reflexivity.
  - apply length_map.
  - reflexivity.
  - reflexivity.
  - intros st Hin. apply in_map_iff in Hin as ([p i] & <- & Hin).
    exists i. cbn [st_port st_sessionId st_idleMinutes fst snd].
    split; [exact Hin|]. split; [reflexivity|].
    apply roundMinutes_bounds.
Qed.

(** X14. The status query and the reaper read the same clock and the same
    [lastUsed]: a Worker the status shows idle for 31 minutes or more is
    removed by a tick at that time, and one shown idle for 29 minutes or
    less is kept by it. *)
Theorem poolStatus_agrees_with_reaper (w : World) (s : State)
  (st : StatusEntry) :
  Inv s ->
  In st (ps_instances (poolStatus (fun _ => now w) s)) ->
  (31 <= st_idleMinutes st ->
   JsMap.has (st_port st) (instances (final (cleanupTick w s))) = false) /\
  (st_idleMinutes st <= 29 ->
   exists i,
     JsMap.get (st_port st) (instances s) = Some i /\
     JsMap.get (st_port st) (instances (final (cleanupTick w s))) = Some i).
Proof.
  intros HI Hin. destruct (Inv_parts s HI) as (Hnd & _).
  unfold poolStatus, statusEntries in Hin. cbn [ps_instances] in Hin.
  apply in_map_iff in Hin as ([p i] & <- & Hin).
  cbn [st_port st_idleMinutes fst snd].
  pose proof (roundMinutes_bounds (now w - lastUsed i)) as Hb.
  pose proof (In_get _ _ _ Hnd Hin) as Hg.
  rewrite (cleanupTick_run w s Hnd). cbn [final fst snd withInstances instances].
  unfold INSTANCE_TIMEOUT_MS in *.
  split.
  - intros H31. eapply has_filter_dropped; eauto.
    unfold timedOut, INSTANCE_TIMEOUT_MS. cbn [snd].
    apply negb_false_iff, Z.gtb_gt. lia.
  - intros H29. exists i. split; [exact Hg|].
    apply get_filter_kept; [exact Hg|].
    unfold timedOut, INSTANCE_TIMEOUT_MS. cbn [snd].
    apply negb_true_iff.
    destruct (Z.gtb_spec (now w - lastUsed i) (30 * 60 * 1000));
      [lia | reflexivity].
Qed.

(** At minute 31, the worker of port 9000 (last used at minute 0) is shown
    idle for 31 minutes and is reaped. *)
Lemma poolStatus_agrees_with_reaper_witness :
  Inv twoWorkers /\
  In (mkStatusEntry 9000 "session-1" 31)
     (ps_instances (poolStatus (fun _ => now (calmWorld (31 * minute))) twoWorkers)) /\
  JsMap.has 9000
    (instances (final (cleanupTick (calmWorld (31 * minute)) twoWorkers))) = false.
Proof.
  split; [reflexivity|].
  assert (Hin : In (mkStatusEntry 9000 "session-1" 31)
                  (ps_instances (poolStatus (fun _ => now (calmWorld (31 * minute)))
                                   twoWorkers)))
    by (left; reflexivity).
  split; [exact Hin|].
  apply (poolStatus_agrees_with_reaper (calmWorld (31 * minute)) twoWorkers
           (mkStatusEntry 9000 "session-1" 31) eq_refl Hin).
  vm_compute. discriminate.
Defined.

Lemma allocatePort_probes_untracked_only_witness :
  let s := withNextPort 9000 (oneWorker 0) in
  events (allocatePort (calmWorld 0) s) = [EvBindProbe 9001] /\
  JsMap.has 9001 (instances s) = false.
Proof.
  intros s. split; [reflexivity|].
  apply (proj1 (allocatePort_probes_untracked_only (calmWorld 0) s)).
  left. reflexivity.
Defined.

Lemma poolStatus_lists_pool_witness :
  let nowAt := fun _ : Port => 31 * minute + 29999 in
  In (mkStatusEntry 9000 "session-1" 31)
     (ps_instances (poolStatus nowAt twoWorkers)) /\
  exists i,
    In (9000, i) (instances twoWorkers) /\
    60000 * 31 - 30000 <= nowAt 9000 - lastUsed i < 60000 * 31 + 30000.
Proof.
  intros nowAt.
  assert (Hin : In (mkStatusEntry 9000 "session-1" 31)
                  (ps_instances (poolStatus nowAt twoWorkers)))
    by (left; reflexivity).
  split; [exact Hin|].
  destruct (proj2 (proj2 (proj2 (proj2 (poolStatus_lists_pool nowAt twoWorkers))))
              _ Hin) as (i & Hi & _ & Hb).
  exists i. split; [exact Hi | exact Hb].
Defined.

(** ** The shutdown handler *)

Lemma cleanup_loop_starts l : forall s,
  (forall e, In e l -> JsMap.get (fst e) (instances s) = Some (snd e)) ->
  forEach l (fun e => killInstanceStart (fst e)) s =
  (Ret tt, s, map (fun e => EvClose (client (snd e))) l).
Proof.
  induction l as [|e l IH]; intros s Hget; [reflexivity|].
  cbn [forEach map]. unfold bind at 1.
  unfold killInstanceStart at 1, bind at 1, getState.
  rewrite (Hget e (or_introl eq_refl)). unfold emit. cbn [app].
  rewrite IH by (intros e' He'; apply Hget; now right).
  reflexivity.
Qed.

(** X15. The shutdown handler calls [close()] on the call channel of
    every tracked Worker, in insertion order, and exits with code 0 without
    waiting for any of the kills it started: when the process exits, no
    worker process has been sent a kill and no entry has left the Pool. *)
Theorem cleanup_closes_without_killing (s : State) :
  Inv s ->
  cleanup s =
    (Ret 0, s, map (fun e => EvClose (client (snd e))) (instances s)) /\
  kills (events (cleanup s)) = [] /\
  List.length (events (cleanup s)) = JsMap.size (instances s).
Proof.
  intros HI. destruct (Inv_parts s HI) as (Hnd & _).
  assert (Hrun : cleanup s =
            (Ret 0, s, map (fun e => EvClose (client (snd e))) (instances s))).
  { unfold cleanup, bind at 1, getState. cbn [app]. unfold bind.
    rewrite cleanup_loop_starts.
    - unfold ret. now rewrite app_nil_r.
    - intros [p i] Hin. now apply In_get. }
  rewrite Hrun. cbn [events snd].
  split; [reflexivity|]. split.
  - unfold kills. clear. generalize (instances s) as l.
    induction l as [|e l IH]; [reflexivity|]. simpl. exact IH.
  - apply length_map.
Qed.

(** Shutdown with two workers tracked: two [close()] calls, no kill. *)
Lemma cleanup_closes_without_killing_witness :
  Inv twoWorkers /\
  cleanup twoWorkers = (Ret 0, twoWorkers, [EvClose 29000; EvClose 29001]).
Proof.
  split; [reflexivity|].
  exact (proj1 (cleanup_closes_without_killing twoWorkers eq_refl)).
Defined.

(** ** One session, one worker *)

Lemma singleWorker_update p f s :
  (forall i, client (f i) = client i) ->
  singleWorker s ->
  singleWorker (withInstances (JsMap.update p f (instances s)) s).
Proof.
  unfold singleWorker. cbn [withInstances instances assignedPort assignedClient].
  intros Hf. destruct (instances s) as [|[q i] [|e l]]; simpl; auto.
  - intros H. destruct (q =? p); [rewrite Hf|]; exact H.
  - intros [].
Qed.

Lemma singleWorker_delete p s :
  singleWorker s ->
  singleWorker (withInstances (JsMap.delete p (instances s)) s).
Proof.
  unfold singleWorker. cbn [withInstances instances assignedPort assignedClient].
  destruct (instances s) as [|[q i] [|e l]]; simpl; auto.
  - destruct (q =? p); simpl; auto.
  - intros [].
Qed.

Lemma singleWorker_touchAssigned w s :
  singleWorker s -> singleWorker (touchAssigned w s).
Proof.
  intros H. unfold touchAssigned.
  destruct (assignedPort s) as [p|]; [|exact H].
  destruct (truthy (Some p) && JsMap.has p (instances s)); [|exact H].
  now apply singleWorker_update.
Qed.

Lemma singleWorker_getOrCreate w s :
  Inv s -> singleWorker s -> singleWorker (final (getOrCreateInstance w s)).
Proof.
  intros HI H1. destruct (Inv_parts s HI) as (_ & Hp & _).
  destruct (cached s) as [[p c]|] eqn:Hc.
  - rewrite (getOrCreate_cached _ _ _ _ Hc). cbn [final fst snd].
    now apply singleWorker_update.
  - assert (Hempty : instances s = []).
    { unfold singleWorker in H1.
      destruct (instances s) as [|[q i] [|e l]] eqn:Hm;
        [reflexivity | | destruct H1].
      destruct H1 as [Hap Hac]. exfalso.
      assert (Hsome : cached s = Some (q, client i)).
      { apply cached_Some. repeat split; auto.
        - assert (Hg : JsMap.get q [(q, i)] = Some i)
            by (simpl; now rewrite Z.eqb_refl).
          pose proof (portsOk_get _ _ _ Hp Hg) as Hlo.
          unfold BASE_PORT in Hlo. lia.
        - rewrite Hm. unfold JsMap.has. simpl. now rewrite Z.eqb_refl. }
      congruence. }
    rewrite (getOrCreate_fresh _ _ Hc). unfold bind.
    rewrite evictIfFull_below
      by (rewrite Hempty; unfold MAX_INSTANCES; simpl; lia).
    rewrite spawnInstance_run. rewrite Hempty.
    destruct (scanPorts w [] 100 (nextPort s) 0) as [[p a] evp].
    assert (Hnil : forall q, singleWorker (withNextPort q s)).
    { intros q. unfold singleWorker. cbn [withNextPort instances].
      now rewrite Hempty. }
    destruct (a >=? 100); cbn [final fst snd app];
      [unfold singleWorker; now rewrite Hempty|].
    cbv zeta.
    destruct (waitForServer w p (withNextPort (p + 1) s))
      as [[[[]|e|] sw] evw]; cbn [final fst snd]; auto.
    destruct (connectClient w p) as [e|c]; cbn [final fst snd]; auto.
    unfold singleWorker, register, JsMap.set.
    cbn [withAssigned withInstances withNextPort instances
         assignedPort assignedClient].
    rewrite Hempty. simpl. auto.
Qed.

Lemma singleWorker_step s s' :
  step s s' -> Inv s -> singleWorker s -> singleWorker s'.
Proof.
  intros Hstep HI H1.
  destruct Hstep as [w s|w name args s|w port s|port s|w s].
  - now apply singleWorker_getOrCreate.
  - rewrite proxyToolCall_state.
    pose proof (singleWorker_getOrCreate w s HI H1) as H2.
    destruct (outcome (getOrCreateInstance w s)); auto.
    now apply singleWorker_touchAssigned.
  - destruct (JsMap.get port (instances s)) as [i|] eqn:Hg.
    + rewrite (killInstance_present _ _ _ _ Hg). cbn [final fst snd].
      now apply singleWorker_delete.
    + now rewrite (killInstance_absent _ _ _ Hg).
  - unfold onExit. cbn [withInstances assignedPort].
    pose proof (singleWorker_delete port s H1) as H2.
    destruct (assignedPort s) as [a|] eqn:Hap; [|exact H2].
    destruct (Z.eqb_spec a port) as [->|Hne]; [|exact H2].
    unfold singleWorker in *.
    cbn [withAssigned withInstances instances assignedPort assignedClient] in *.
    destruct (instances s) as [|[q i] [|e l]]; simpl in *; auto.
    + destruct H1 as [Hq _]. rewrite Hap in Hq. injection Hq as <-.
      now rewrite Z.eqb_refl.
    + destruct H1.
  - destruct (Inv_parts s HI) as (Hnd & _).
    rewrite (cleanupTick_run w s Hnd). cbn [final fst snd].
    unfold singleWorker in *.
    cbn [withInstances instances assignedPort assignedClient].
    destruct (instances s) as [|[q i] [|e l]]; simpl in *; auto.
    + destruct (negb (timedOut w (q, i))); simpl; auto.
    + destruct H1.
Qed.

(** X16. Served call by call from the empty pool (calls, kills, process
    exits and reaper ticks each run to their end before the next begins),
    the Pool never holds more than one Worker, and the one it holds is the
    session's assigned Worker with the cached call channel.  So the capacity
    check of [getOrCreateInstance] never evicts in such a run. *)
Theorem pool_holds_at_most_one_worker (sid : string) (s : State) :
  reachable sid s ->
  (JsMap.size (instances s) <= 1)%nat /\
  (forall p i,
     JsMap.get p (instances s) = Some i ->
     assignedPort s = Some p /\ assignedClient s = Some (client i)) /\
  (forall w, evictIfFull w s = (Ret tt, s, [])).
Proof.
  intros Hreach.
  assert (H1 : singleWorker s).
  { induction Hreach as [|s s' Hr IH Hstep]; [exact I|].
    apply (singleWorker_step s s' Hstep); [|exact IH].
    apply (reachable_invariant sid s Hr). }
  unfold singleWorker in H1.
  assert (Hsz : (JsMap.size (instances s) <= 1)%nat).
  { destruct (instances s) as [|[q i] [|e l]]; simpl;
      first [lia | destruct H1]. }
  split; [exact Hsz|]. split.
  - intros p i Hg.
    destruct (instances s) as [|[q j] [|e l]]; simpl in Hg;
      [discriminate | | destruct H1].
    destruct (Z.eqb_spec q p) as [->|_]; [|discriminate].
    injection Hg as <-. exact H1.
  - intros w. apply evictIfFull_below. unfold MAX_INSTANCES. lia.
Qed.

(** After a call, a kill by the reaper and a fresh call, one worker. *)
Lemma pool_holds_at_most_one_worker_witness :
  let s1 := final (getOrCreateInstance (calmWorld 0) (initial "session-1")) in
  let s2 := final (cleanupTick (calmWorld (40 * minute)) s1) in
  let s3 := final (getOrCreateInstance (calmWorld (41 * minute)) s2) in
  reachable "session-1" s3 /\
  JsMap.keys (instances s3) = [9001] /\
  (JsMap.size (instances s3) <= 1)%nat.
Proof.
  intros s1 s2 s3.
  assert (Hr : reachable "session-1" s3).
  { apply (ReachStep _ s2 s3); [|apply StepGetOrCreate].
    apply (ReachStep _ s1 s2); [|apply StepTick].
    apply (ReachStep _ (initial "session-1") s1); [|apply StepGetOrCreate].
    apply ReachInitial. }
  split; [exact Hr|]. split; [reflexivity|].
  exact (proj1 (pool_holds_at_most_one_worker "session-1" s3 Hr)).
Defined.

(** ** The invariant, in plain terms *)

Lemma nodupKeys_NoDup m : nodupKeys m = true -> NoDup (JsMap.keys m).
Proof.
  induction m as [|[q j] m IH]; simpl; [constructor|].
  rewrite andb_true_iff, negb_true_iff. intros [Hq Hm].
  constructor; [|auto].
  intros Hin. apply has_keys in Hin. congruence.
Qed.

(** X17. From any state whose Pool has pairwise distinct ports, all at
    least [BASE_PORT], and no more than [MAX_INSTANCES] entries (with the
    cursor at least [BASE_PORT] and the cached channel that of the assigned
    entry), every operation, a [getOrCreateInstance], a [proxyToolCall], a
    [killInstance], a process exit or a reaper tick, ends in such a state
    again. *)
Theorem operations_keep_pool_well_formed (s s' : State) :
  step s s' ->
  Inv s -> withinCapacity s ->
  NoDup (JsMap.keys (instances s')) /\
  (forall p, In p (JsMap.keys (instances s')) -> BASE_PORT <= p) /\
  BASE_PORT <= nextPort s' /\
  (JsMap.size (instances s') <= MAX_INSTANCES)%nat /\
  Inv s'.
Proof.
  intros Hstep HI Hsz.
  destruct (step_invariant s s' Hstep (conj HI Hsz)) as [HI' Hsz'].
  destruct (Inv_parts s' HI') as (Hnd & Hp & Hn & _).
  split; [now apply nodupKeys_NoDup|].
  split; [|auto].
  intros p Hin. apply has_keys, has_true_iff in Hin as [i Hg].
  eapply portsOk_get; eauto.
Qed.

(** The full pool of ten workers after one more call: ten distinct ports. *)
Lemma operations_keep_pool_well_formed_witness :
  let s' := final (getOrCreateInstance (calmWorld 100) fullPool) in
  step fullPool s' /\ Inv fullPool /\ withinCapacity fullPool /\
  NoDup (JsMap.keys (instances s')) /\
  (JsMap.size (instances s') <= MAX_INSTANCES)%nat.
Proof.
  intros s'.
  assert (Hstep : step fullPool s') by apply StepGetOrCreate.
  assert (Hsz : withinCapacity fullPool) by (vm_compute; repeat constructor).
  split; [exact Hstep|]. split; [reflexivity|]. split; [exact Hsz|].
  destruct (operations_keep_pool_well_formed fullPool s' Hstep eq_refl Hsz)
    as (Hnd & _ & _ & Hsz' & _).
  split; [exact Hnd | exact Hsz'].
Defined.

(** ** A failed spawn at capacity *)

(** X18. The capacity check comes before the spawn: when the Pool is at
    capacity and the spawn then fails, the call throws and the least
    recently used Worker has been killed all the same.  The Pool is left
    with one entry fewer than before the call. *)
Theorem failed_spawn_at_capacity_has_evicted (w : World) (s : State)
  (e : Error) (s' : State) (ev : list Event) :
  Inv s -> cached s = None ->
  (MAX_INSTANCES <= JsMap.size (instances s))%nat ->
  getOrCreateInstance w s = (Threw e, s', ev) ->
  exists vp vi,
    JsMap.get vp (instances s) = Some vi /\
    (forall q i, JsMap.get q (instances s) = Some i ->
       lastUsed vi <= lastUsed i) /\
    instances s' = JsMap.delete vp (instances s) /\
    S (JsMap.size (instances s')) = JsMap.size (instances s) /\
    In (EvProcessKill (process vi)) ev.
Proof.
  intros HI Hc Hfull Hrun.
  destruct (Inv_parts s HI) as (Hnd & _).
  destruct (getOrCreate_full_run w s HI Hc Hfull) as
    (pre & vp & vi & post & Hm & H1 & H2 & Hdel & Hg).
  rewrite Hg, spawnInstance_run in Hrun. clear Hg.
  cbn [withInstances instances nextPort] in Hrun.
  destruct (scanPorts w (pre ++ post) 100 (nextPort s) 0)
    as [[p a] evp] eqn:Hscan.
  assert (Hs' : instances s' = pre ++ post /\
                exists ev2, ev = killEvents (vp, vi) ++ ev2).
  { destruct (a >=? 100).
    { injection Hrun as _ <- <-.
      split; [reflexivity | eexists; reflexivity]. }
    cbv zeta in Hrun.
    destruct (waitForServer w p (withNextPort (p + 1) (withInstances (pre ++ post) s)))
      as [[[[]|e0|] sw] evw]; try discriminate.
    - destruct (connectClient w p); [|discriminate].
      injection Hrun as _ <- <-.
      split; [reflexivity | eexists; reflexivity].
    - injection Hrun as _ <- <-.
      split; [reflexivity | eexists; reflexivity]. }
  destruct Hs' as [Hs' (ev2 & ->)].
  exists vp, vi. split; [|split; [|split; [|split]]].
  - rewrite Hm. apply get_entry. now rewrite <- Hm.
  - intros q i Hq. apply get_In in Hq. rewrite Hm in Hq.
    apply in_app_or in Hq as [Hq|[Hq|Hq]].
    + specialize (H1 _ Hq). simpl in H1. lia.
    + injection Hq as _ <-. lia.
    + specialize (H2 _ Hq). simpl in H2. lia.
  - now rewrite Hs', Hdel.
  - rewrite Hs', Hm. unfold JsMap.size. rewrite !length_app. simpl. lia.
  - simpl. auto.
Qed.

(** Ten workers and a health probe that is never answered: the call
    throws and nine workers are left, port 9001 gone. *)
Lemma failed_spawn_at_capacity_has_evicted_witness :
  Inv fullPool /\ cached fullPool = None /\
  (MAX_INSTANCES <= JsMap.size (instances fullPool))%nat /\
  outcome (getOrCreateInstance deafWorld fullPool) = Threw (WaitTimeout 9010) /\
  S (JsMap.size (instances (final (getOrCreateInstance deafWorld fullPool)))) =
    JsMap.size (instances fullPool).
Proof.
  split; [reflexivity|]. split; [reflexivity|].
  assert (Hfull : (MAX_INSTANCES <= JsMap.size (instances fullPool))%nat)
    by (vm_compute; repeat constructor).
  split; [exact Hfull|]. split; [reflexivity|].
  set (r := getOrCreateInstance deafWorld fullPool).
  destruct (failed_spawn_at_capacity_has_evicted deafWorld fullPool
              (WaitTimeout 9010) (final r) (events r) eq_refl eq_refl Hfull
              eq_refl) as (vp & vi & _ & _ & _ & Hsz & _).
  exact Hsz.
Defined.
